(** * rand-table, package [dice]: a shallow embedding and its verification

    The package describes a pool of identical dice ([Dice]), validates it
    ([Validate], [New], [NewExt]), prints it ([String]) and rolls it with a
    pluggable source of randomness ([RollResults], [RollRand], [Roll]).

    Modelling choices, all taken from [pkg/dice/rand.go]:
    - Go's [int] is the 64-bit two's complement integer of the usual targets:
      a [Z] in [[MinInt, MaxInt]], every [+] and [-] of the source followed
      by [wrap];
    - a [big.Int] is a [Z];
    - a slice of [int] is a [list Z]; a field that may hold the nil slice is
      an [option (list Z)], [None] being nil; the slices of a [Results] share
      the array of [Raw], which nothing writes after the sort, so they are
      kept as values;
    - the methods have a pointer receiver, so they run in a state monad whose
      store holds the receiver (and, for the rolls, the internal state of
      the [Rand] source); a run-time panic ends the run with [Panic] and
      leaves the store;
    - memory is unbounded up to the limit that the runtime puts on the
      capacity of a slice: [make] panics on a negative capacity and on one
      of more than [maxAlloc] bytes, and allocates otherwise. *)

From Stdlib Require Import ZArith List Bool Lia String Ascii.
From Stdlib Require Import DecimalString Permutation Sorted.
From Stdlib Require DecimalPos DecimalZ.
Import ListNotations.
Local Open Scope Z_scope.

(** ** Machine integers *)

Module Int.

Definition bits : Z := 64.
Definition MinInt : Z := - 2 ^ (bits - 1).
Definition MaxInt : Z := 2 ^ (bits - 1) - 1.

(** Two's complement reduction of a mathematical result. *)
Definition wrap (z : Z) : Z := (z - MinInt) mod 2 ^ bits + MinInt.

Definition add (a b : Z) : Z := wrap (a + b).
Definition sub (a b : Z) : Z := wrap (a - b).

(** [a % b] of Go, for [b <> 0]: the remainder has the sign of [a]. *)
Definition rem (a b : Z) : Z := wrap (Z.rem a b).

Definition is_int (z : Z) : Prop := MinInt <= z <= MaxInt.

(** The verb [%d] of [fmt]. *)
Definition itoa (z : Z) : string := NilZero.string_of_int (Z.to_int z).

End Int.

(** ** Outcomes and the method monad *)

Inductive panic : Type :=
| MakesliceCapOutOfRange
| SliceBoundsOutOfRange
| IntegerDivideByZero
| InvalidArgumentToIntn.

Inductive outcome (A : Type) : Type :=
| Ok (a : A)
| Panic (p : panic).
Arguments Ok {A} a.
Arguments Panic {A} p.

(** A computation over a store [St]: the store survives a panic, as the heap
    of a Go program does. *)
Definition M (St A : Type) : Type := St -> outcome A * St.

Definition ret {St A} (a : A) : M St A := fun st => (Ok a, st).

Definition bind {St A B} (m : M St A) (f : A -> M St B) : M St B :=
  fun st =>
    match m st with
    | (Ok a, st') => f a st'
    | (Panic p, st') => (Panic p, st')
    end.

Definition throw {St A} (p : panic) : M St A := fun st => (Panic p, st).

Definition get {St} : M St St := fun st => (Ok st, st).

Definition put {St} (st : St) : M St unit := fun _ => (Ok tt, st).

Declare Scope go_scope.
Delimit Scope go_scope with go.
Notation "x <- m ;; k" := (bind m (fun x => k))
  (at level 61, m at next level, right associativity) : go_scope.
Local Open Scope go_scope.

(** ** Data model *)

Record Dice : Type := mkDice {
  Number : Z;
  Sides : Z;
  DropLow : Z;
  DropHigh : Z
}.

Record Results : Type := mkResults {
  Value : Z;
  DroppedLow : option (list Z);
  DroppedHigh : option (list Z);
  Kept : list Z;
  Raw : list Z
}.

(** ** Errors (errors.go) *)

Definition error : Type := string.

Definition ErrNumberTooLow (num : Z) : error :=
  ("number of dice is too low: " ++ Int.itoa num)%string.

Definition ErrSidesTooLow (num : Z) : error :=
  ("number of sides is too low: " ++ Int.itoa num)%string.

Definition ErrDropLowTooLow (num : Z) : error :=
  ("number of low dice to drop must be positive: " ++ Int.itoa num)%string.

Definition ErrDropHighTooLow (num : Z) : error :=
  ("number of high dice to drop must be positive: " ++ Int.itoa num)%string.

Definition ErrTooManyDropped (low high num : Z) : error :=
  ("too many dice dropped: " ++ Int.itoa low ++ " + " ++ Int.itoa high
     ++ " >= " ++ Int.itoa num)%string.

(** ** Construction, validation, display *)

Definition Validate : M Dice (option error) :=
  d <- get ;;
  if Number d <? 1 then ret (Some (ErrNumberTooLow (Number d)))
  else if Sides d <=? 1 then ret (Some (ErrSidesTooLow (Sides d)))
  else if DropLow d <? 0 then ret (Some (ErrDropLowTooLow (DropLow d)))
  else if DropHigh d <? 0 then ret (Some (ErrDropHighTooLow (DropHigh d)))
  else if Int.add (DropLow d) (DropHigh d) >=? Number d
       then ret (Some (ErrTooManyDropped (DropLow d) (DropHigh d) (Number d)))
  else ret None.

(** Go's two results, a pointer to a [Dice] and an [error]: each may be nil
    on its own, so the pair is kept as a pair of options. [Validate] cannot
    panic; the last branch only propagates what [M] could return. *)
Definition NewExt (num sides droplow drophigh : Z)
  : outcome (option Dice * option error) :=
  let d := mkDice num sides droplow drophigh in
  match Validate d with
  | (Ok (Some err), _) => Ok (None, Some err)
  | (Ok None, d') => Ok (Some d', None)
  | (Panic p, _) => Panic p
  end.

Definition New (num sides : Z) : outcome (option Dice * option error) :=
  NewExt num sides 0 0.

Definition String : M Dice string :=
  d <- get ;;
  if DropLow d >? 0 then
    if DropHigh d >? 0 then
      ret (Int.itoa (Number d) ++ "d" ++ Int.itoa (Sides d)
             ++ "L" ++ Int.itoa (DropLow d) ++ "H" ++ Int.itoa (DropHigh d))%string
    else
      ret (Int.itoa (Number d) ++ "d" ++ Int.itoa (Sides d)
             ++ "L" ++ Int.itoa (DropLow d))%string
  else if DropHigh d >? 0 then
    ret (Int.itoa (Number d) ++ "d" ++ Int.itoa (Sides d)
           ++ "H" ++ Int.itoa (DropHigh d))%string
  else
    ret (Int.itoa (Number d) ++ "d" ++ Int.itoa (Sides d))%string.

(** ** Sources of randomness *)

(** The interface [Rand]: [Intn] runs over the internal state [S] of the
    implementation, which has no access to the receiver of a roll. *)
Class Rand (S : Type) : Type := { Intn : Z -> M S Z }.

(** [mockMaxRand] of the tests: always the largest value allowed. *)
#[export] Instance mockMaxRand : Rand unit :=
  {| Intn := fun n => ret (Int.sub n 1) |}.

(** [mockIterRand] of the tests; its state is the field [Value]. *)
#[export] Instance mockIterRand : Rand Z :=
  {| Intn := fun n =>
       r <- get ;;
       if n =? 0 then throw IntegerDivideByZero
       else
         let v := Int.rem r n in
         _ <- put (Int.add r 1) ;;
         ret v |}.

Section StdRand.

(** The generator behind [math/rand], which the repository only calls: its
    state, and [rand.Intn] on a positive argument. *)
Variable gen : Type.
Variable rand_Intn : Z -> gen -> Z * gen.

#[local] Instance stdRand : Rand gen :=
  {| Intn := fun n =>
       if n <=? 0 then throw InvalidArgumentToIntn
       else fun g => let (v, g') := rand_Intn n g in (Ok v, g') |}.

End StdRand.

(** ** Rolling *)

(** [sort.Ints]: the ascending rearrangement of a slice, here by insertion. *)
Fixpoint insert (x : Z) (l : list Z) : list Z :=
  match l with
  | [] => [x]
  | y :: l' => if x <=? y then x :: l else y :: insert x l'
  end.

Definition sort_Ints (l : list Z) : list Z := fold_right insert [] l.

(** [maxAlloc] of the runtime: the size of the address space of the heap,
    [2^48] bytes on the 64-bit targets. *)
Definition maxAlloc : Z := 2 ^ 48.

(** [make([]int, 0, n)]: [makeslice] of the runtime panics when the
    capacity is negative or when its [8 * n] bytes exceed [maxAlloc]. *)
Definition make {St} (n : Z) : M St (list Z) :=
  if (n <? 0) || (maxAlloc <? 8 * n) then throw MakesliceCapOutOfRange
  else ret [].

Definition len (a : list Z) : Z := Z.of_nat (List.length a).

(** The slice expression [a[lo:hi]] on a slice filled to its capacity, as
    [Raw] is once the drawing loop has run: the bounds must satisfy
    [0 <= lo <= hi <= cap(a)]. *)
Definition slice {St} (a : list Z) (lo hi : Z) : M St (list Z) :=
  if (0 <=? lo) && (lo <=? hi) && (hi <=? len a)
  then ret (firstn (Z.to_nat (hi - lo)) (skipn (Z.to_nat lo) a))
  else throw SliceBoundsOutOfRange.

(** The store of a roll: the receiver and the state of the source. *)
Record mem (S : Type) : Type := mkMem { self : Dice; rng : S }.
Arguments mkMem {S} self rng.
Arguments self {S} m.
Arguments rng {S} m.

Section Roll.

Context {S : Type} {R : Rand S}.

(** Reading through the receiver pointer. *)
Definition this : M (mem S) Dice := fun st => (Ok (self st), st).

(** A call of a method of the source. *)
Definition call {A} (m : M S A) : M (mem S) A :=
  fun st => let (o, s') := m (rng st) in (o, mkMem (self st) s').

(** The drawing loop, [n] iterations left. The counter [i] of the source
    runs from [0] to [d.Number], which nothing assigns meanwhile, and cannot
    overflow below [d.Number]. *)
Fixpoint draw (n : nat) (raw : list Z) : M (mem S) (list Z) :=
  match n with
  | O => ret raw
  | Datatypes.S n' =>
      d <- this ;;
      v <- call (Intn (Sides d)) ;;
      draw n' (raw ++ [Int.add v 1])
  end.

Definition RollResults : M (mem S) Results :=
  d <- this ;;
  raw <- make (Number d) ;;
  raw <- draw (Z.to_nat (Number d)) raw ;;
  let raw := sort_Ints raw in
  droppedLow <-
    (if DropLow d >? 0
     then l <- slice raw 0 (DropLow d) ;; ret (Some l)
     else ret None) ;;
  droppedHigh <-
    (if DropHigh d >? 0
     then l <- slice raw (Int.sub (Number d) (DropHigh d)) (len raw) ;;
          ret (Some l)
     else ret None) ;;
  kept <- slice raw (DropLow d) (Int.sub (Number d) (DropHigh d)) ;;
  let value := fold_left (fun value v => value + v) kept 0 in
  ret (mkResults value droppedLow droppedHigh kept raw).

Definition RollRand : M (mem S) Z :=
  results <- RollResults ;;
  ret (Value results).

End Roll.

(** [Roll]: [RollRand] on the package's [StdRand]. *)
Definition Roll (gen : Type) (rand_Intn : Z -> gen -> Z * gen) : M (mem gen) Z :=
  @RollRand gen (stdRand gen rand_Intn).

(** ** The vocabulary of the properties *)

(** All four fields are values of Go's [int]. *)
Definition wf_Dice (d : Dice) : Prop :=
  Int.is_int (Number d) /\ Int.is_int (Sides d) /\
  Int.is_int (DropLow d) /\ Int.is_int (DropHigh d).

(** The invariant of a dice specification, over the integers. *)
Definition valid (d : Dice) : Prop :=
  1 <= Number d /\ 2 <= Sides d /\ 0 <= DropLow d /\ 0 <= DropHigh d /\
  DropLow d + DropHigh d < Number d.

(** A source that keeps the contract of [Intn]: on a positive bound it
    returns, without a panic, a value of [[0, n)]. *)
Definition in_range {S} (R : Rand S) : Prop :=
  forall n s, 0 < n <= Int.MaxInt ->
    exists v, fst (Intn n s) = Ok v /\ 0 <= v < n.

(** The elements of a slice that may be nil. *)
Definition elems (s : option (list Z)) : list Z :=
  match s with Some l => l | None => [] end.

(** The arithmetic sum of a list. *)
Definition sum (l : list Z) : Z := fold_right Z.add 0 l.

(** The result of a roll as a function of the sorted draws. *)
Definition split_sorted (d : Dice) (raw : list Z) : Results :=
  let low := Z.to_nat (DropLow d) in
  let high := Z.to_nat (Number d - DropHigh d) in
  let kept := firstn (high - low) (skipn low raw) in
  {| Value := sum kept;
     DroppedLow := if DropLow d >? 0 then Some (firstn low raw) else None;
     DroppedHigh := if DropHigh d >? 0 then Some (skipn high raw) else None;
     Kept := kept;
     Raw := raw |}.

(** The short-hand of the specification: the stem, then the two optional
    suffixes, the low one first. *)
Definition String_spec (d : Dice) : string :=
  let stem := (Int.itoa (Number d) ++ "d" ++ Int.itoa (Sides d))%string in
  let low :=
    if DropLow d >? 0 then ("L" ++ Int.itoa (DropLow d))%string
    else EmptyString in
  let high :=
    if DropHigh d >? 0 then ("H" ++ Int.itoa (DropHigh d))%string
    else EmptyString in
  ((stem ++ low) ++ high)%string.

(** [n] calls of a method in a row, with the results in call order. *)
Fixpoint calls {St A} (n : nat) (m : M St A) : M St (list A) :=
  match n with
  | O => ret []
  | Datatypes.S n' => a <- m ;; l <- calls n' m ;; ret (a :: l)
  end.

(** [preserves proj m]: the part [proj] of the store is the same after [m]
    as before, whether [m] returns or panics. *)
Definition preserves {St X A} (proj : St -> X) (m : M St A) : Prop :=
  forall st, proj (snd (m st)) = proj st.

(** The largest capacity of a slice of [int]. *)
Definition maxCap : Z := maxAlloc / 8.

(** The specifications that a roll can take: those that neither [make] nor
    a slice expression of [RollResults] rejects. *)
Definition can_roll (d : Dice) : Prop :=
  0 <= Number d <= maxCap /\ 0 <= DropLow d /\ 0 <= DropHigh d /\
  DropLow d + DropHigh d <= Number d.

(** The [n] consecutive integers from [a] on. *)
Fixpoint upto (a : Z) (n : nat) : list Z :=
  match n with
  | O => []
  | Datatypes.S n' => a :: upto (a + 1) n'
  end.

(** The decimal digits, and the strings that cannot continue a number: the
    empty one and those that start with another character. *)
Definition is_digit (c : ascii) : bool :=
  let n := nat_of_ascii c in (48 <=? n)%nat && (n <=? 57)%nat.

Fixpoint all_digits (s : string) : bool :=
  match s with
  | EmptyString => true
  | String.String c s' => is_digit c && all_digits s'
  end.

Definition stops (s : string) : Prop :=
  match s with
  | EmptyString => True
  | String.String c _ => is_digit c = false
  end.

(** The suffixes of the short-hand, each number closed by the end of the
    string or by the next letter. *)
Definition suffixes (d : Dice) : string :=
  let high :=
    if DropHigh d >? 0 then ("H" ++ Int.itoa (DropHigh d) ++ EmptyString)%string
    else EmptyString in
  if DropLow d >? 0 then ("L" ++ Int.itoa (DropLow d) ++ high)%string
  else high.

(** * Verification *)

(** ** Machine integers *)

Lemma MinInt_eq : Int.MinInt = -9223372036854775808.
Proof. reflexivity. Qed.

Lemma MaxInt_eq : Int.MaxInt = 9223372036854775807.
Proof. reflexivity. Qed.

Lemma wrap_id (z : Z) : Int.is_int z -> Int.wrap z = z.
Proof.
  unfold Int.is_int, Int.wrap. rewrite MinInt_eq, MaxInt_eq. intros Hz.
  change (2 ^ Int.bits) with 18446744073709551616.
  rewrite Z.mod_small; lia.
Qed.

Lemma maxAlloc_eq : maxAlloc = 281474976710656.
Proof. reflexivity. Qed.

Lemma maxCap_eq : maxCap = 35184372088832.
Proof. reflexivity. Qed.

Ltac int_bounds :=
  unfold wf_Dice, valid, Int.is_int in *;
  rewrite ?MinInt_eq, ?MaxInt_eq, ?maxCap_eq, ?maxAlloc_eq in *.

Lemma make_ok {St} (n : Z) (st : St) :
  0 <= n <= maxCap -> make n st = (Ok [], st).
Proof.
  intros Hn. unfold make.
  replace (n <? 0) with false by (symmetry; apply Z.ltb_ge; lia).
  replace (maxAlloc <? 8 * n) with false
    by (symmetry; apply Z.ltb_ge; int_bounds; lia).
  reflexivity.
Qed.

Lemma make_panics {St} (n : Z) (st : St) :
  n < 0 \/ maxCap < n -> make n st = (Panic MakesliceCapOutOfRange, st).
Proof.
  intros Hn. unfold make.
  destruct (Z.ltb_spec n 0); [reflexivity|].
  replace (maxAlloc <? 8 * n) with true
    by (symmetry; apply Z.ltb_lt; int_bounds; lia).
  reflexivity.
Qed.

(** ** The monad *)

Lemma bind_ok {St A B} (m : M St A) (f : A -> M St B) st a st' :
  m st = (Ok a, st') -> bind m f st = f a st'.
Proof. intros H. unfold bind. now rewrite H. Qed.

Lemma bind_panic {St A B} (m : M St A) (f : A -> M St B) st p st' :
  m st = (Panic p, st') -> bind m f st = (Panic p, st').
Proof. intros H. unfold bind. now rewrite H. Qed.

(** ** Sorting *)

Lemma insert_perm (x : Z) (l : list Z) : Permutation (x :: l) (insert x l).
Proof.
  induction l as [|y l IH]; simpl.
  - apply Permutation_refl.
  - destruct (x <=? y).
    + apply Permutation_refl.
    + eapply perm_trans; [apply perm_swap|]. now apply perm_skip.
Qed.

Lemma sort_Ints_perm (l : list Z) : Permutation l (sort_Ints l).
Proof.
  induction l as [|x l IH]; simpl.
  - constructor.
  - eapply perm_trans; [apply perm_skip, IH|]. apply insert_perm.
Qed.

Lemma insert_HdRel (a x : Z) (l : list Z) :
  a <= x -> HdRel Z.le a l -> HdRel Z.le a (insert x l).
Proof.
  intros Hax Hl. destruct l as [|y l]; simpl.
  - now constructor.
  - destruct (x <=? y); constructor; trivial. now inversion Hl.
Qed.

Lemma insert_sorted (x : Z) (l : list Z) :
  Sorted Z.le l -> Sorted Z.le (insert x l).
Proof.
  induction 1 as [|y l Hs IH Hd]; simpl.
  - repeat constructor.
  - destruct (x <=? y) eqn:E.
    + apply Z.leb_le in E. repeat constructor; trivial.
    + apply Z.leb_gt in E. constructor; trivial.
      apply insert_HdRel; trivial. lia.
Qed.

Lemma sort_Ints_sorted (l : list Z) : Sorted Z.le (sort_Ints l).
Proof.
  induction l as [|x l IH]; simpl.
  - constructor.
  - now apply insert_sorted.
Qed.

Lemma sort_Ints_length (l : list Z) : List.length (sort_Ints l) = List.length l.
Proof. symmetry. apply Permutation_length, sort_Ints_perm. Qed.

Lemma sort_Ints_Forall (P : Z -> Prop) (l : list Z) :
  Forall P l -> Forall P (sort_Ints l).
Proof. apply Permutation_Forall, sort_Ints_perm. Qed.

(** ** Sums *)

Lemma fold_left_add (l : list Z) (acc : Z) :
  fold_left (fun value v => value + v) l acc = acc + sum l.
Proof.
  revert acc. induction l as [|x l IH]; intros acc; simpl.
  - lia.
  - rewrite IH. unfold sum. lia.
Qed.

Lemma sum_bounds (lo hi : Z) (l : list Z) :
  Forall (fun v => lo <= v <= hi) l ->
  len l * lo <= sum l <= len l * hi.
Proof.
  unfold len. induction 1 as [|x l Hx Hl IH].
  - simpl. lia.
  - change (List.length (x :: l)) with (Datatypes.S (List.length l)).
    rewrite Nat2Z.inj_succ. change (sum (x :: l)) with (x + sum l). lia.
Qed.

(** ** Frame: what a computation leaves untouched *)

Create HintDb frame discriminated.

Lemma preserves_ret {St X A} (proj : St -> X) (a : A) : preserves proj (ret a).
Proof. intros st. reflexivity. Qed.

Lemma preserves_throw {St X A} (proj : St -> X) (p : panic) :
  preserves proj (@throw St A p).
Proof. intros st. reflexivity. Qed.

Lemma preserves_get {St X} (proj : St -> X) : preserves proj get.
Proof. intros st. reflexivity. Qed.

Lemma preserves_bind {St X A B} (proj : St -> X) (m : M St A) (f : A -> M St B) :
  preserves proj m -> (forall a, preserves proj (f a)) ->
  preserves proj (bind m f).
Proof.
  intros Hm Hf st. unfold bind. specialize (Hm st).
  destruct (m st) as [[a|p] st']; simpl in *.
  - now rewrite Hf.
  - assumption.
Qed.

Lemma preserves_if {St X A} (proj : St -> X) (b : bool) (m1 m2 : M St A) :
  preserves proj m1 -> preserves proj m2 ->
  preserves proj (if b then m1 else m2).
Proof. now destruct b. Qed.

Lemma preserves_make {St X} (proj : St -> X) (n : Z) : preserves proj (make n).
Proof. unfold make. apply preserves_if; [apply preserves_throw|apply preserves_ret]. Qed.

Lemma preserves_slice {St X} (proj : St -> X) (a : list Z) (lo hi : Z) :
  preserves proj (slice a lo hi).
Proof. unfold slice. apply preserves_if; [apply preserves_ret|apply preserves_throw]. Qed.

#[export] Hint Resolve preserves_ret preserves_throw preserves_get
  preserves_make preserves_slice : frame.
#[export] Hint Extern 2 (preserves _ (bind _ _)) =>
  apply preserves_bind; [|intro] : frame.
#[export] Hint Extern 2 (preserves _ (if _ then _ else _)) =>
  apply preserves_if : frame.

Lemma Validate_preserves : preserves (fun d : Dice => d) Validate.
Proof. unfold Validate. auto 12 with frame. Qed.

Lemma String_preserves : preserves (fun d : Dice => d) String.
Proof. unfold String. auto 12 with frame. Qed.

Section RollFrame.

Context {S : Type} {R : Rand S}.

Lemma preserves_this : preserves self (@this S).
Proof. intros st. reflexivity. Qed.

Lemma preserves_call {A} (m : M S A) : preserves self (call m).
Proof. intros st. unfold call. now destruct (m (rng st)). Qed.

#[local] Hint Resolve preserves_this preserves_call : frame.

Lemma draw_preserves (n : nat) (raw : list Z) : preserves self (draw n raw).
Proof.
  revert raw. induction n as [|n IH]; intros raw; simpl; auto 6 with frame.
Qed.

#[local] Hint Resolve draw_preserves : frame.

Lemma RollResults_preserves : preserves self RollResults.
Proof. unfold RollResults. auto 20 with frame. Qed.

Lemma RollRand_preserves : preserves self RollRand.
Proof.
  unfold RollRand. apply preserves_bind; [apply RollResults_preserves|].
  intro. apply preserves_ret.
Qed.

End RollFrame.

(** ** Running a roll *)

Lemma slice_ok {St} (a : list Z) (lo hi : Z) (st : St) :
  0 <= lo <= hi -> hi <= len a ->
  slice a lo hi st = (Ok (firstn (Z.to_nat (hi - lo)) (skipn (Z.to_nat lo) a)), st).
Proof.
  intros H1 H2. unfold slice.
  replace (0 <=? lo) with true by (symmetry; apply Z.leb_le; lia).
  replace (lo <=? hi) with true by (symmetry; apply Z.leb_le; lia).
  replace (hi <=? len a) with true by (symmetry; apply Z.leb_le; lia).
  reflexivity.
Qed.

Lemma slice_panics {St} (a : list Z) (lo hi : Z) (st : St) :
  len a < hi -> slice a lo hi st = (Panic SliceBoundsOutOfRange, st).
Proof.
  intros H. unfold slice.
  replace (hi <=? len a) with false by (symmetry; apply Z.leb_gt; lia).
  now rewrite andb_false_r.
Qed.

Section RollRun.

Context {S : Type} (R : Rand S).
Hypothesis HR : in_range R.

Lemma draw_run (n : nat) (d : Dice) :
  0 < Sides d <= Int.MaxInt ->
  forall raw s, exists l s',
    draw n raw (mkMem d s) = (Ok (raw ++ l), mkMem d s') /\
    List.length l = n /\
    Forall (fun v => 1 <= v <= Sides d) l.
Proof.
  intros Hs. induction n as [|n IH]; intros raw s.
  - exists [], s. simpl. rewrite app_nil_r. repeat split. constructor.
  - destruct (HR (Sides d) s Hs) as (v & Hv & Hrange).
    destruct (IH (raw ++ [Int.add v 1]) (snd (Intn (Sides d) s)))
      as (l & s' & Hrun & Hlen & Hall).
    exists (Int.add v 1 :: l), s'. split; [|split].
    + simpl. unfold bind at 1, this at 1. simpl.
      unfold bind at 1, call at 1. simpl.
      destruct (Intn (Sides d) s) as [o s1]. simpl in Hv, Hrun. subst o.
      rewrite Hrun, <- app_assoc. reflexivity.
    + simpl. now rewrite Hlen.
    + constructor; trivial. unfold Int.add. rewrite wrap_id.
      * lia.
      * int_bounds. lia.
Qed.

Lemma RollResults_run (d : Dice) (s : S) :
  wf_Dice d -> valid d -> Number d <= maxCap ->
  exists draws s',
    draw (Z.to_nat (Number d)) [] (mkMem d s) = (Ok draws, mkMem d s') /\
    len draws = Number d /\
    Forall (fun v => 1 <= v <= Sides d) draws /\
    RollResults (mkMem d s) = (Ok (split_sorted d (sort_Ints draws)), mkMem d s').
Proof.
  intros Hwf Hv Hcap.
  assert (Hmake : @make (mem S) (Number d) (mkMem d s) = (Ok [], mkMem d s))
    by (apply make_ok; unfold valid in Hv; lia).
  assert (Hs : 0 < Sides d <= Int.MaxInt) by (int_bounds; lia).
  destruct (draw_run (Z.to_nat (Number d)) d Hs [] s)
    as (draws & s' & Hrun & Hlen & Hall).
  simpl in Hrun. exists draws, s'.
  assert (Hl : len draws = Number d).
  { unfold len. rewrite Hlen, Z2Nat.id; [reflexivity|]. int_bounds. lia. }
  assert (Hls : len (sort_Ints draws) = Number d).
  { unfold len in *. now rewrite sort_Ints_length. }
  assert (Hsub : Int.sub (Number d) (DropHigh d) = Number d - DropHigh d).
  { apply wrap_id. int_bounds. lia. }
  repeat split; trivial.
  unfold RollResults.
  rewrite (bind_ok this _ (mkMem d s) d (mkMem d s) eq_refl).
  rewrite (bind_ok _ _ _ _ _ Hmake).
  unfold bind at 1. rewrite Hrun.
  set (raw := sort_Ints draws) in *.
  rewrite Hsub, Hls. unfold split_sorted.
  assert (Hkept : slice raw (DropLow d) (Number d - DropHigh d) (mkMem d s')
                  = (Ok (firstn (Z.to_nat (Number d - DropHigh d)
                                 - Z.to_nat (DropLow d))
                                (skipn (Z.to_nat (DropLow d)) raw)),
                     mkMem d s')).
  { rewrite slice_ok by (int_bounds; lia).
    rewrite Z2Nat.inj_sub by (int_bounds; lia). reflexivity. }
  assert (Hlow : slice raw 0 (DropLow d) (mkMem d s')
                 = (Ok (firstn (Z.to_nat (DropLow d)) raw), mkMem d s')).
  { rewrite slice_ok by (int_bounds; lia). now rewrite Z.sub_0_r. }
  assert (Hhigh : slice raw (Number d - DropHigh d) (Number d) (mkMem d s')
                  = (Ok (skipn (Z.to_nat (Number d - DropHigh d)) raw),
                     mkMem d s')).
  { rewrite slice_ok by (int_bounds; lia). rewrite firstn_all2; trivial.
    rewrite length_skipn. unfold len in Hls. int_bounds. lia. }
  destruct (DropLow d >? 0); destruct (DropHigh d >? 0);
    unfold bind, ret; rewrite ?Hlow, ?Hhigh, Hkept;
    rewrite fold_left_add; reflexivity.
Qed.

End RollRun.

(** ** Lists cut in three *)

Lemma three_way_split (low high : nat) (raw : list Z) :
  (low <= high)%nat ->
  firstn low raw ++ firstn (high - low) (skipn low raw) ++ skipn high raw = raw.
Proof.
  intros Hle.
  replace (skipn high raw) with (skipn (high - low) (skipn low raw)).
  - now rewrite firstn_skipn, firstn_skipn.
  - rewrite skipn_skipn. f_equal. lia.
Qed.

Lemma Forall_firstn_skipn (P : Z -> Prop) (n m : nat) (l : list Z) :
  Forall P l -> Forall P (firstn n (skipn m l)).
Proof.
  intros H.
  rewrite <- (firstn_skipn m l) in H. apply Forall_app in H as [_ H].
  rewrite <- (firstn_skipn n (skipn m l)) in H. now apply Forall_app in H.
Qed.

(** ** Sources that keep the contract *)

Lemma mockMaxRand_in_range : in_range mockMaxRand.
Proof.
  intros n s Hn. exists (n - 1). split; [|lia].
  simpl. unfold ret, Int.sub. simpl. rewrite wrap_id; trivial.
  int_bounds. lia.
Qed.

Lemma stdRand_in_range (gen : Type) (rand_Intn : Z -> gen -> Z * gen) :
  (forall n g, 0 < n -> 0 <= fst (rand_Intn n g) < n) ->
  in_range (stdRand gen rand_Intn).
Proof.
  intros H n g Hn. exists (fst (rand_Intn n g)). split; [|apply H; lia].
  simpl. replace (n <=? 0) with false by (symmetry; apply Z.leb_gt; lia).
  now destruct (rand_Intn n g).
Qed.

(** ** What [Validate] computes *)

Lemma Validate_run (d : Dice) :
  Validate d =
  (Ok (if Number d <? 1 then Some (ErrNumberTooLow (Number d))
       else if Sides d <=? 1 then Some (ErrSidesTooLow (Sides d))
       else if DropLow d <? 0 then Some (ErrDropLowTooLow (DropLow d))
       else if DropHigh d <? 0 then Some (ErrDropHighTooLow (DropHigh d))
       else if Int.add (DropLow d) (DropHigh d) >=? Number d
            then Some (ErrTooManyDropped (DropLow d) (DropHigh d) (Number d))
       else None), d).
Proof.
  unfold Validate, bind, get, ret.
  destruct (Number d <? 1), (Sides d <=? 1), (DropLow d <? 0),
    (DropHigh d <? 0), (Int.add (DropLow d) (DropHigh d) >=? Number d);
    reflexivity.
Qed.

(** Where the sum of the two drop counts fits an [int], the last check
    compares the sum itself. *)
Lemma Validate_valid (d : Dice) :
  Int.is_int (DropLow d + DropHigh d) ->
  (Validate d = (Ok None, d) <-> valid d).
Proof.
  intros Hsum. rewrite Validate_run. unfold Int.add. rewrite wrap_id by trivial.
  unfold valid.
  destruct (Z.ltb_spec (Number d) 1); [split; [discriminate|lia]|].
  destruct (Z.leb_spec (Sides d) 1); [split; [discriminate|lia]|].
  destruct (Z.ltb_spec (DropLow d) 0); [split; [discriminate|lia]|].
  destruct (Z.ltb_spec (DropHigh d) 0); [split; [discriminate|lia]|].
  rewrite Z.geb_leb.
  destruct (Z.leb_spec (Number d) (DropLow d + DropHigh d));
    [split; [discriminate|lia]|].
  split; [lia|reflexivity].
Qed.

Lemma valid_Validate (d : Dice) :
  wf_Dice d -> valid d -> Validate d = (Ok None, d).
Proof.
  intros Hwf Hv. apply Validate_valid; trivial. int_bounds. lia.
Qed.

(** [NewExt] never returns both results, and never neither. *)
Lemma NewExt_exclusive (num sides droplow drophigh : Z) :
  NewExt num sides droplow drophigh
    = Ok (Some (mkDice num sides droplow drophigh), None) \/
  exists err, NewExt num sides droplow drophigh = Ok (None, Some err).
Proof.
  unfold NewExt. rewrite Validate_run.
  match goal with
  | |- context [match ?e with Some _ => _ | None => _ end] =>
      destruct e as [err|]
  end.
  - right. now exists err.
  - now left.
Qed.

Lemma NewExt_valid (num sides droplow drophigh : Z) :
  Int.is_int (droplow + drophigh) ->
  (NewExt num sides droplow drophigh
     = Ok (Some (mkDice num sides droplow drophigh), None)
   <-> valid (mkDice num sides droplow drophigh)).
Proof.
  intros Hsum. rewrite <- Validate_valid by exact Hsum.
  unfold NewExt. rewrite Validate_run.
  match goal with
  | |- context [match ?e with Some _ => _ | None => _ end] =>
      destruct e as [err|]
  end;
    split; congruence.
Qed.

(** The total of a roll computed from draws that all lie in [[1, Sides]]. *)
Lemma split_sorted_Value_bounds (d : Dice) (draws : list Z) :
  wf_Dice d -> valid d ->
  len draws = Number d ->
  Forall (fun v => 1 <= v <= Sides d) draws ->
  let k := Number d - DropLow d - DropHigh d in
  k <= Value (split_sorted d (sort_Ints draws)) <= k * Sides d.
Proof.
  intros Hwf Hv Hlen Hall k. simpl.
  set (kept := firstn _ _).
  assert (Hkept : len kept = k).
  { unfold kept, len. rewrite length_firstn, length_skipn, sort_Ints_length.
    unfold len in Hlen. unfold k. int_bounds. lia. }
  assert (Hin : Forall (fun v => 1 <= v <= Sides d) kept)
    by (apply Forall_firstn_skipn, sort_Ints_Forall, Hall).
  apply sum_bounds in Hin. rewrite Hkept in Hin. lia.
Qed.

(** [Raw] is a rearrangement of the values drawn. *)
Lemma RollResults_Raw_perm {S : Type} (R : Rand S) (d : Dice) (s : S) :
  wf_Dice d -> valid d -> Number d <= maxCap -> in_range R ->
  exists draws res st',
    draw (Z.to_nat (Number d)) [] (mkMem d s) = (Ok draws, st') /\
    RollResults (mkMem d s) = (Ok res, st') /\
    Permutation draws (Raw res).
Proof.
  intros Hwf Hv Hcap HR.
  destruct (RollResults_run R HR d s Hwf Hv Hcap)
    as (draws & s' & Hdraw & _ & _ & Hrun).
  exists draws, (split_sorted d (sort_Ints draws)), (mkMem d s').
  repeat split; trivial. apply sort_Ints_perm.
Qed.

(** With any source that keeps the contract of [Intn], the roll of a
    specification whose low drop count exceeds [Number] draws the dice and
    then panics on the first slice expression. *)
Lemma RollResults_panics_any_source {S : Type} (R : Rand S) (s : S) :
  in_range R ->
  exists s',
    RollResults (mkMem (mkDice 1 2 Int.MaxInt 1) s)
      = (Panic SliceBoundsOutOfRange, mkMem (mkDice 1 2 Int.MaxInt 1) s').
Proof.
  intros HR. set (d := mkDice 1 2 Int.MaxInt 1).
  assert (Hs : 0 < Sides d <= Int.MaxInt) by (rewrite MaxInt_eq; simpl; lia).
  destruct (draw_run R HR 1 d Hs [] s) as (l & s' & Hrun & Hlen & _).
  change ([] ++ l) with l in Hrun.
  exists s'. unfold RollResults.
  erewrite bind_ok by reflexivity.
  erewrite bind_ok by reflexivity.
  erewrite bind_ok by exact Hrun.
  apply bind_panic. change (DropLow d >? 0) with true. cbv iota.
  apply bind_panic, slice_panics.
  unfold len. rewrite sort_Ints_length, Hlen. reflexivity.
Qed.

(** * Properties of the specification *)




(** C2. The fifth check of [Validate] does not see every specification that
    drops too many dice: the sum [DropLow + DropHigh] is computed on [int]
    and wraps. On [Dice{Number: 1, Sides: 2, DropLow: MaxInt, DropHigh: 1}]
    none of the first four checks fires, [DropLow + DropHigh >= Number]
    holds, and [Validate] reports no error instead of the too-many-dropped
    error. *)
Theorem Validate_misses_wrapped_sum :
  let d := mkDice 1 2 Int.MaxInt 1 in
  wf_Dice d /\
  1 <= Number d /\ 1 < Sides d /\ 0 <= DropLow d /\ 0 <= DropHigh d /\
  DropLow d + DropHigh d >= Number d /\
  Int.add (DropLow d) (DropHigh d) = Int.MinInt /\
  Validate d = (Ok None, d).
Proof.
  cbv zeta. unfold wf_Dice, Int.is_int. rewrite MinInt_eq, MaxInt_eq. simpl.
  repeat split; try lia; try reflexivity.
Qed.

(** The five checks, in their order and with the values they report, over
    the integers: so [Validate] behaves whenever the sum of the drop counts
    fits an [int]. *)
Lemma Validate_order (d : Dice) :
  Int.is_int (DropLow d + DropHigh d) ->
  Validate d =
  (Ok (if Number d <? 1 then Some (ErrNumberTooLow (Number d))
       else if Sides d <=? 1 then Some (ErrSidesTooLow (Sides d))
       else if DropLow d <? 0 then Some (ErrDropLowTooLow (DropLow d))
       else if DropHigh d <? 0 then Some (ErrDropHighTooLow (DropHigh d))
       else if DropLow d + DropHigh d >=? Number d
            then Some (ErrTooManyDropped (DropLow d) (DropHigh d) (Number d))
       else None), d).
Proof.
  intros Hsum. rewrite Validate_run. unfold Int.add. now rewrite wrap_id.
Qed.

(** C3. [NewExt] returns a specification, and no error, for arguments that
    do not satisfy [droplow + drophigh < num]: on [NewExt(1, 2, MaxInt, 1)]
    the sum wraps to [MinInt] and the last check of [Validate] passes. *)
Theorem NewExt_accepts_wrapped_sum :
  Int.is_int 1 /\ Int.is_int 2 /\ Int.is_int Int.MaxInt /\
  ~ (Int.MaxInt + 1 < 1) /\
  NewExt 1 2 Int.MaxInt 1 = Ok (Some (mkDice 1 2 Int.MaxInt 1), None).
Proof.
  unfold Int.is_int. rewrite MinInt_eq, MaxInt_eq.
  repeat split; try lia; try reflexivity.
Qed.

(** C4. With the sequential source started at 0, rolling the specification
    built by [NewExt(5, 20, 3, 0)] draws [1, 2, 3, 4, 5] in this order and
    returns [Raw = [1,2,3,4,5]], [DroppedLow = [1,2,3]], a nil
    [DroppedHigh], [Kept = [4,5]] and [Value = 9]. *)
Theorem RollResults_DropLow_scenario :
  exists d,
    NewExt 5 20 3 0 = Ok (Some d, None) /\
    fst (@draw Z mockIterRand 5 [] (mkMem d 0)) = Ok [1; 2; 3; 4; 5] /\
    fst (@RollResults Z mockIterRand (mkMem d 0))
      = Ok {| Value := 9;
              DroppedLow := Some [1; 2; 3];
              DroppedHigh := None;
              Kept := [4; 5];
              Raw := [1; 2; 3; 4; 5] |}.
Proof.
  exists (mkDice 5 20 3 0). repeat split; vm_compute; reflexivity.
Qed.

(** C5. [New(num, sides)] returns what [NewExt(num, sides, 0, 0)] returns,
    the specification on success and the error on failure. *)
Theorem New_is_NewExt_without_drops (num sides : Z) :
  New num sides = NewExt num sides 0 0.
Proof. reflexivity. Qed.

(** Spelled out: with no dice dropped only the first two checks can fire. *)
Lemma New_run (num sides : Z) :
  Int.is_int num ->
  New num sides =
  Ok (if num <? 1 then (None, Some (ErrNumberTooLow num))
      else if sides <=? 1 then (None, Some (ErrSidesTooLow sides))
      else (Some (mkDice num sides 0 0), None)).
Proof.
  intros Hnum. unfold New, NewExt. rewrite Validate_run. simpl.
  destruct (Z.ltb_spec num 1); [reflexivity|].
  destruct (sides <=? 1); [reflexivity|].
  unfold Int.add. rewrite wrap_id by (int_bounds; lia). simpl.
  replace (0 >=? num) with false; [reflexivity|].
  rewrite Z.geb_leb. symmetry. apply Z.leb_gt. lia.
Qed.

(** ** Display *)

Lemma append_assoc (a b c : string) :
  ((a ++ b) ++ c = a ++ (b ++ c))%string.
Proof. induction a as [|x a IH]; simpl; [reflexivity|now rewrite IH]. Qed.

Lemma append_empty_r (a : string) : (a ++ EmptyString = a)%string.
Proof. induction a as [|x a IH]; simpl; [reflexivity|now rewrite IH]. Qed.

(** C6. [String] returns ["{Number}d{Sides}"], followed by ["L{DropLow}"]
    exactly when [DropLow > 0], followed by ["H{DropHigh}"] exactly when
    [DropHigh > 0]; the specification built by [New(2, 20)] prints as
    ["2d20"]. *)
Theorem String_shorthand (d : Dice) :
  String d = (Ok (String_spec d), d) /\
  exists d0, New 2 20 = Ok (Some d0, None) /\ String d0 = (Ok "2d20"%string, d0).
Proof.
  split.
  - unfold String, String_spec, bind, get, ret. cbv zeta.
    destruct (DropLow d >? 0), (DropHigh d >? 0);
      rewrite ?append_empty_r, ?append_assoc; simpl;
      rewrite ?append_assoc; reflexivity.
  - exists (mkDice 2 20 0 0). split; reflexivity.
Qed.

(** ** Repeated validation *)

Lemma Validate_calls (d : Dice) (n : nat) :
  exists e, Validate d = (Ok e, d) /\ calls n Validate d = (Ok (repeat e n), d).
Proof.
  rewrite Validate_run.
  match goal with |- context [(Ok ?x, d)] => exists x end.
  split; [reflexivity|].
  induction n as [|n IH]; simpl; [reflexivity|].
  unfold bind at 1. rewrite Validate_run.
  unfold bind at 1. rewrite IH. reflexivity.
Qed.

(** C7. On a specification that [Validate] accepts, a further call accepts
    it again, and any number of calls in a row all return no error and leave
    the specification as it was. *)
Theorem Validate_idempotent (d : Dice) :
  fst (Validate d) = Ok None ->
  Validate (snd (Validate d)) = (Ok None, d) /\
  forall n, calls n Validate d = (Ok (repeat None n), d).
Proof.
  intros Hok. split.
  - rewrite (Validate_preserves d). simpl.
    rewrite (surjective_pairing (Validate d)), Hok.
    now rewrite (Validate_preserves d).
  - intros n. destruct (Validate_calls d n) as (e & He & Hn).
    rewrite He in Hok. simpl in Hok. congruence.
Qed.

Lemma Validate_idempotent_witness :
  fst (Validate (mkDice 2 20 0 0)) = Ok None /\
  Validate (snd (Validate (mkDice 2 20 0 0))) = (Ok None, mkDice 2 20 0 0) /\
  forall n, calls n Validate (mkDice 2 20 0 0)
            = (Ok (repeat None n), mkDice 2 20 0 0).
Proof.
  split; [reflexivity|]. apply (Validate_idempotent (mkDice 2 20 0 0)).
  reflexivity.
Defined.

(** C8. [RollResults], [RollRand] and [String] leave the four fields of the
    receiver as they were, for every specification and every source,
    whether the call returns or panics. *)
Theorem Dice_not_mutated {S : Type} (R : Rand S) (d : Dice) (s : S) :
  let after_results := self (snd (RollResults (mkMem d s))) in
  let after_rand := self (snd (RollRand (mkMem d s))) in
  let after_string := snd (String d) in
  (Number after_results = Number d /\ Sides after_results = Sides d /\
   DropLow after_results = DropLow d /\ DropHigh after_results = DropHigh d) /\
  (Number after_rand = Number d /\ Sides after_rand = Sides d /\
   DropLow after_rand = DropLow d /\ DropHigh after_rand = DropHigh d) /\
  (Number after_string = Number d /\ Sides after_string = Sides d /\
   DropLow after_string = DropLow d /\ DropHigh after_string = DropHigh d).
Proof.
  cbv zeta.
  rewrite (RollResults_preserves (mkMem d s)),
    (RollRand_preserves (mkMem d s)), (String_preserves d).
  simpl. repeat split.
Qed.

(** C9. A specification that [Validate] accepts can still make
    [RollResults] panic. [Dice{Number: 1, Sides: 2, DropLow: MaxInt,
    DropHigh: 1}] passes [Validate], because the sum of the drop counts
    wraps; the roll draws one die and then evaluates [Raw[:MaxInt]] on a
    slice of capacity 1, with a source that keeps the contract of [Intn]. *)
Theorem RollResults_panics_on_validated :
  let d := mkDice 1 2 Int.MaxInt 1 in
  wf_Dice d /\
  Validate d = (Ok None, d) /\
  in_range mockMaxRand /\
  fst (@draw unit mockMaxRand 1 [] (mkMem d tt)) = Ok [2] /\
  ~ (DropLow d <= Number d) /\
  @RollResults unit mockMaxRand (mkMem d tt)
    = (Panic SliceBoundsOutOfRange, mkMem d tt).
Proof.
  cbv zeta. split; [|split; [|split; [|split; [|split]]]].
  - unfold wf_Dice, Int.is_int. rewrite MinInt_eq, MaxInt_eq. simpl. lia.
  - reflexivity.
  - exact mockMaxRand_in_range.
  - reflexivity.
  - rewrite MaxInt_eq. simpl. lia.
  - vm_compute. reflexivity.
Qed.




(** The same bounds for [Roll], given that [rand.Intn] keeps its contract. *)
Corollary Roll_bounds (gen : Type) (rand_Intn : Z -> gen -> Z * gen)
    (d : Dice) (g : gen) :
  (forall n g, 0 < n -> 0 <= fst (rand_Intn n g) < n) ->
  wf_Dice d -> valid d -> Number d <= maxCap ->
  exists v g',
    Roll gen rand_Intn (mkMem d g) = (Ok v, mkMem d g') /\
    Number d - DropLow d - DropHigh d <= v
      <= (Number d - DropLow d - DropHigh d) * Sides d.
Proof.
  intros Hgen Hwf Hv Hcap.
  destruct (RollResults_run (stdRand gen rand_Intn)
              (stdRand_in_range gen rand_Intn Hgen) d g Hwf Hv Hcap)
    as (draws & g' & _ & Hlen & Hall & Hrun).
  exists (Value (split_sorted d (sort_Ints draws))), g'. split.
  - unfold Roll, RollRand, bind. now rewrite Hrun.
  - apply split_sorted_Value_bounds; assumption.
Qed.

(** * Further properties of the code *)

(** ** The monad, read backwards *)

Lemma bind_Ok_inv {St A B} (m : M St A) (f : A -> M St B) st b st2 :
  bind m f st = (Ok b, st2) ->
  exists a st1, m st = (Ok a, st1) /\ f a st1 = (Ok b, st2).
Proof.
  unfold bind. destruct (m st) as [[a|p] st1]; [|discriminate].
  intros H. now exists a, st1.
Qed.


Lemma wrap_above (z : Z) :
  Int.MaxInt < z <= Int.MaxInt - Int.MinInt -> Int.wrap z < 0.
Proof.
  unfold Int.wrap. rewrite MinInt_eq, MaxInt_eq. intros Hz.
  change (2 ^ Int.bits) with 18446744073709551616.
  replace (z - -9223372036854775808)
    with ((z - 9223372036854775808) + 1 * 18446744073709551616) by lia.
  rewrite Z.mod_add by lia. rewrite Z.mod_small; lia.
Qed.

(** ** The drawing loop *)

Section Draws.

Context {S : Type} (R : Rand S).

(** The loop is [n] calls of [Intn] in a row, all with the bound [Sides];
    each value returned is kept plus one, in call order, and a panic inside
    [Intn] ends the roll with that panic. *)
Lemma draw_calls (n : nat) (d : Dice) :
  forall raw s,
    draw n raw (mkMem d s) =
    match calls n (Intn (Sides d)) s with
    | (Ok vs, s') => (Ok (raw ++ map (fun v => Int.add v 1) vs), mkMem d s')
    | (Panic p, s') => (Panic p, mkMem d s')
    end.
Proof.
  induction n as [|n IH]; intros raw s.
  - simpl. unfold ret. now rewrite app_nil_r.
  - cbn [draw calls]. unfold bind, this, call, ret. cbn [self rng].
    destruct (Intn (Sides d) s) as [[v|p] s1]; [|reflexivity].
    rewrite IH.
    destruct (calls n (Intn (Sides d)) s1) as [[vs|p] s2]; [|reflexivity].
    simpl. now rewrite <- app_assoc.
Qed.

Lemma draw_length (n : nat) :
  forall raw st l st',
    draw n raw st = (Ok l, st') ->
    List.length l = (List.length raw + n)%nat.
Proof.
  induction n as [|n IH]; intros raw st l st' H.
  - simpl in H. unfold ret in H. injection H as <- _. lia.
  - simpl in H.
    apply bind_Ok_inv in H as (d & st1 & _ & H).
    apply bind_Ok_inv in H as (v & st2 & _ & H).
    apply IH in H. rewrite H, length_app. simpl. lia.
Qed.

End Draws.

(** ** When a roll returns *)

Section RollDomain.

Context {S : Type} (R : Rand S).

(** Once the dice are drawn, a specification of [can_roll] goes through the
    three slice expressions, whatever the source did. *)
Lemma RollResults_after_draw (d : Dice) (s : S) (draws : list Z) (st' : mem S) :
  wf_Dice d -> can_roll d ->
  draw (Z.to_nat (Number d)) [] (mkMem d s) = (Ok draws, st') ->
  RollResults (mkMem d s) = (Ok (split_sorted d (sort_Ints draws)), st').
Proof.
  intros Hwf Hc Hrun. unfold can_roll in Hc.
  assert (Hls : len (sort_Ints draws) = Number d).
  { unfold len. rewrite sort_Ints_length, (draw_length R _ _ _ _ _ Hrun).
    simpl. rewrite Z2Nat.id; lia. }
  assert (Hsub : Int.sub (Number d) (DropHigh d) = Number d - DropHigh d).
  { apply wrap_id. int_bounds. lia. }
  unfold RollResults.
  rewrite (bind_ok this _ (mkMem d s) d (mkMem d s) eq_refl).
  assert (Hmake : @make (mem S) (Number d) (mkMem d s) = (Ok [], mkMem d s))
    by (apply make_ok; lia).
  rewrite (bind_ok _ _ _ _ _ Hmake).
  erewrite bind_ok by exact Hrun.
  set (raw := sort_Ints draws) in *.
  rewrite Hsub, Hls. unfold split_sorted.
  assert (Hkept : slice raw (DropLow d) (Number d - DropHigh d) st'
                  = (Ok (firstn (Z.to_nat (Number d - DropHigh d)
                                 - Z.to_nat (DropLow d))
                                (skipn (Z.to_nat (DropLow d)) raw)), st')).
  { rewrite slice_ok by lia. rewrite Z2Nat.inj_sub by lia. reflexivity. }
  assert (Hlow : slice raw 0 (DropLow d) st'
                 = (Ok (firstn (Z.to_nat (DropLow d)) raw), st')).
  { rewrite slice_ok by lia. now rewrite Z.sub_0_r. }
  assert (Hhigh : slice raw (Number d - DropHigh d) (Number d) st'
                  = (Ok (skipn (Z.to_nat (Number d - DropHigh d)) raw), st')).
  { rewrite slice_ok by lia. rewrite firstn_all2; trivial.
    rewrite length_skipn. unfold len in Hls. lia. }
  destruct (DropLow d >? 0); destruct (DropHigh d >? 0);
    unfold bind, ret; rewrite ?Hlow, ?Hhigh, Hkept;
    rewrite fold_left_add; reflexivity.
Qed.


End RollDomain.



(** ** What a roll asks of its source *)

Section RollTail.

Context {S : Type} (R : Rand S).

(** The part of [RollResults] after the drawing loop. *)
Lemma RollResults_unfold (d : Dice) (s : S) :
  0 <= Number d <= maxCap ->
  exists tail : list Z -> M (mem S) Results,
    RollResults (mkMem d s)
      = bind (draw (Z.to_nat (Number d)) []) tail (mkMem d s) /\
    (forall raw, preserves (fun st : mem S => st) (tail raw)) /\
    (forall raw st res st',
        tail raw st = (Ok res, st') -> Raw res = sort_Ints raw).
Proof.
  intros HN. eexists. split; [|split].
  - unfold RollResults.
    rewrite (bind_ok this _ (mkMem d s) d (mkMem d s) eq_refl).
    assert (Hmake : @make (mem S) (Number d) (mkMem d s) = (Ok [], mkMem d s))
      by (now apply make_ok).
    rewrite (bind_ok _ _ _ _ _ Hmake). reflexivity.
  - intros raw. cbv beta. auto 20 with frame.
  - intros raw st res st' H. cbv beta in H.
    apply bind_Ok_inv in H as (low & st1 & _ & H).
    apply bind_Ok_inv in H as (high & st2 & _ & H).
    apply bind_Ok_inv in H as (kept & st3 & _ & H).
    unfold ret in H. injection H as <- _. reflexivity.
Qed.

End RollTail.

(** X2. A roll whose [Number] is negative or beyond [maxCap] panics in
    [make] and leaves the source untouched. Any other roll calls [Intn]
    exactly [Number] times in a row, each time with the bound [Sides], and
    does nothing else to the source: a panic of [Intn] is the panic of the
    roll; otherwise the source is left as the last call left it, and the
    [Raw] of a roll that returns is the sorted list of the values returned,
    each plus one. *)
Theorem RollResults_draws {S : Type} (R : Rand S) (d : Dice) (s : S) :
  (Number d < 0 \/ maxCap < Number d ->
   RollResults (mkMem d s) = (Panic MakesliceCapOutOfRange, mkMem d s)) /\
  (0 <= Number d <= maxCap ->
   match calls (Z.to_nat (Number d)) (Intn (Sides d)) s with
   | (Panic p, s') => RollResults (mkMem d s) = (Panic p, mkMem d s')
   | (Ok vs, s') =>
       snd (RollResults (mkMem d s)) = mkMem d s' /\
       forall res, fst (RollResults (mkMem d s)) = Ok res ->
                   Raw res = sort_Ints (map (fun v => Int.add v 1) vs)
   end).
Proof.
  split.
  - intros Hout. unfold RollResults.
    rewrite (bind_ok this _ (mkMem d s) d (mkMem d s) eq_refl).
    now apply bind_panic, make_panics.
  - intros HN.
    destruct (RollResults_unfold R d s HN) as (tail & -> & Hfr & Hraw).
    unfold bind. rewrite (draw_calls R).
    destruct (calls (Z.to_nat (Number d)) (Intn (Sides d)) s) as [[vs|p] s'];
      [|reflexivity].
    simpl app. split.
    + apply (Hfr _ (mkMem d s')).
    + intros res Hres.
      destruct (tail (map (fun v => Int.add v 1) vs) (mkMem d s'))
        as [o st'] eqn:E.
      simpl in Hres. subst o. eapply Hraw, E.
Qed.

Lemma RollResults_draws_witness :
  (@RollResults Z mockIterRand (mkMem (mkDice (2 ^ 62) 2 0 0) 4)
     = (Panic MakesliceCapOutOfRange, mkMem (mkDice (2 ^ 62) 2 0 0) 4)) /\
  (snd (@RollResults Z mockIterRand (mkMem (mkDice 3 6 1 0) 4))
     = mkMem (mkDice 3 6 1 0) 7 /\
   forall res,
     fst (@RollResults Z mockIterRand (mkMem (mkDice 3 6 1 0) 4)) = Ok res ->
     Raw res = [1; 5; 6]).
Proof.
  split.
  - refine (proj1 (RollResults_draws mockIterRand (mkDice (2 ^ 62) 2 0 0) 4) _).
    right. rewrite maxCap_eq. simpl. lia.
  - refine (proj2 (RollResults_draws mockIterRand (mkDice 3 6 1 0) 4) _).
    rewrite maxCap_eq. simpl. lia.
Defined.

(** ** The lowest and the highest dice *)

Lemma StronglySorted_app_le (a b : list Z) :
  StronglySorted Z.le (a ++ b) ->
  forall x y, In x a -> In y b -> x <= y.
Proof.
  induction a as [|h a IH]; intros Hs x y Hx Hy; [contradiction|].
  simpl in Hs. apply StronglySorted_inv in Hs as [Hs Hall].
  destruct Hx as [<-|Hx].
  - rewrite Forall_forall in Hall. apply Hall, in_or_app. now right.
  - now apply IH.
Qed.

Lemma sorted_app_le (a b : list Z) :
  Sorted Z.le (a ++ b) -> forall x y, In x a -> In y b -> x <= y.
Proof.
  intros Hs. apply StronglySorted_app_le, Sorted_StronglySorted; trivial.
  exact Z.le_trans.
Qed.

(** X3. In the roll of a specification that a roll can take (so with
    [Number <= maxCap]), every die shows a face of [[1, Sides]], no dropped
    low die is above a kept one, and no kept die is above a dropped high
    one. *)
Theorem RollResults_drops_extremes {S : Type} (R : Rand S) (d : Dice) (s : S) :
  wf_Dice d -> can_roll d -> 1 <= Sides d -> in_range R ->
  exists res st',
    RollResults (mkMem d s) = (Ok res, st') /\
    Forall (fun v => 1 <= v <= Sides d) (Raw res) /\
    (forall x y, In x (elems (DroppedLow res)) -> In y (Kept res) -> x <= y) /\
    (forall x y, In x (Kept res) -> In y (elems (DroppedHigh res)) -> x <= y).
Proof.
  intros Hwf Hc Hs HR.
  assert (Hsides : 0 < Sides d <= Int.MaxInt) by (int_bounds; lia).
  destruct (draw_run R HR (Z.to_nat (Number d)) d Hsides [] s)
    as (draws & s' & Hrun & _ & Hall).
  simpl in Hrun.
  exists (split_sorted d (sort_Ints draws)), (mkMem d s').
  split; [now apply RollResults_after_draw|].
  set (raw := sort_Ints draws).
  pose proof (sort_Ints_sorted draws) as Hsorted. fold raw in Hsorted.
  unfold can_roll in Hc.
  assert (Hsplit : firstn (Z.to_nat (DropLow d)) raw
                   ++ Kept (split_sorted d raw)
                   ++ skipn (Z.to_nat (Number d - DropHigh d)) raw = raw)
    by (apply three_way_split; lia).
  assert (Hlow : incl (elems (DroppedLow (split_sorted d raw)))
                   (firstn (Z.to_nat (DropLow d)) raw)).
  { simpl. destruct (DropLow d >? 0); [apply incl_refl|intros x []]. }
  assert (Hhigh : incl (elems (DroppedHigh (split_sorted d raw)))
                    (skipn (Z.to_nat (Number d - DropHigh d)) raw)).
  { simpl. destruct (DropHigh d >? 0); [apply incl_refl|intros x []]. }
  split; [|split].
  - now apply sort_Ints_Forall.
  - intros x y Hx Hy. rewrite <- Hsplit in Hsorted.
    apply (sorted_app_le _ _ Hsorted x y); [now apply Hlow|].
    apply in_or_app. now left.
  - intros x y Hx Hy. rewrite <- Hsplit, app_assoc in Hsorted.
    apply (sorted_app_le _ _ Hsorted x y); [|now apply Hhigh].
    apply in_or_app. now right.
Qed.

Lemma RollResults_drops_extremes_witness :
  wf_Dice (mkDice 5 20 2 1) /\ can_roll (mkDice 5 20 2 1) /\ 1 <= 20 /\
  in_range mockMaxRand /\
  exists res st',
    RollResults (mkMem (mkDice 5 20 2 1) tt) = (Ok res, st') /\
    Forall (fun v => 1 <= v <= 20) (Raw res) /\
    (forall x y, In x (elems (DroppedLow res)) -> In y (Kept res) -> x <= y) /\
    (forall x y, In x (Kept res) -> In y (elems (DroppedHigh res)) -> x <= y).
Proof.
  assert (Hwf : wf_Dice (mkDice 5 20 2 1))
    by (unfold wf_Dice, Int.is_int; rewrite MinInt_eq, MaxInt_eq; simpl; lia).
  assert (Hc : can_roll (mkDice 5 20 2 1)) by (unfold can_roll; rewrite maxCap_eq; simpl; lia).
  assert (Hs : 1 <= 20) by lia.
  split; [exact Hwf|]. split; [exact Hc|]. split; [exact Hs|].
  split; [exact mockMaxRand_in_range|].
  exact (RollResults_drops_extremes mockMaxRand (mkDice 5 20 2 1) tt
           Hwf Hc Hs mockMaxRand_in_range).
Defined.

(** ** Rolling with the mock sources *)

Lemma sort_Ints_id (l : list Z) : Sorted Z.le l -> sort_Ints l = l.
Proof.
  induction 1 as [|a l Hs IH Hd]; [reflexivity|].
  simpl. rewrite IH. destruct Hd as [|y l' Hay]; [reflexivity|].
  simpl. now replace (a <=? y) with true by (symmetry; apply Z.leb_le; lia).
Qed.

Lemma repeat_sorted (x : Z) (n : nat) : Sorted Z.le (repeat x n).
Proof.
  induction n as [|n IH]; simpl; constructor; trivial.
  destruct n; simpl; constructor. lia.
Qed.

Lemma sum_repeat (x : Z) (n : nat) : sum (repeat x n) = Z.of_nat n * x.
Proof.
  induction n as [|n IH]; [reflexivity|].
  change (sum (repeat x (Datatypes.S n))) with (x + sum (repeat x n)).
  rewrite IH, Nat2Z.inj_succ. lia.
Qed.

Lemma mockMaxRand_calls (n : nat) (b : Z) :
  calls n (@Intn unit mockMaxRand b) tt = (Ok (repeat (Int.sub b 1) n), tt).
Proof.
  induction n as [|n IH]; [reflexivity|].
  cbn [calls]. unfold bind at 1.
  change (@Intn unit mockMaxRand b tt) with (@Ok Z (Int.sub b 1), tt).
  cbv iota. unfold bind. now rewrite IH.
Qed.

(** X4. With [mockMaxRand] every die shows [Sides] in the roll of a
    specification that a roll can take (so with [Number <= maxCap]): [Raw]
    is [Number] times [Sides], [Kept] is [Number - DropLow - DropHigh] times
    [Sides], and the total, which [RollRand] returns, is their product, the
    largest total the specification allows. *)
Theorem RollResults_mockMaxRand (d : Dice) :
  wf_Dice d -> can_roll d -> 1 <= Sides d ->
  let k := Number d - DropLow d - DropHigh d in
  exists res,
    @RollResults unit mockMaxRand (mkMem d tt) = (Ok res, mkMem d tt) /\
    Raw res = repeat (Sides d) (Z.to_nat (Number d)) /\
    Kept res = repeat (Sides d) (Z.to_nat k) /\
    Value res = k * Sides d /\
    @RollRand unit mockMaxRand (mkMem d tt) = (Ok (k * Sides d), mkMem d tt).
Proof.
  intros Hwf Hc Hs k.
  assert (Hface : Int.add (Int.sub (Sides d) 1) 1 = Sides d).
  { unfold Int.add, Int.sub. rewrite (wrap_id (Sides d - 1)) by (int_bounds; lia).
    rewrite wrap_id by (int_bounds; lia). lia. }
  assert (Hdraw : @draw unit mockMaxRand (Z.to_nat (Number d)) [] (mkMem d tt)
                  = (Ok (repeat (Sides d) (Z.to_nat (Number d))), mkMem d tt)).
  { rewrite (draw_calls mockMaxRand), mockMaxRand_calls.
    simpl app. now rewrite map_repeat, Hface. }
  pose proof (RollResults_after_draw mockMaxRand d tt _ _ Hwf Hc Hdraw) as Hrun.
  rewrite (sort_Ints_id _ (repeat_sorted _ _)) in Hrun.
  set (raw := repeat (Sides d) (Z.to_nat (Number d))) in *.
  unfold can_roll in Hc.
  assert (Hkept : Kept (split_sorted d raw) = repeat (Sides d) (Z.to_nat k)).
  { simpl. set (kept := firstn _ _).
    assert (Hall : Forall (eq (Sides d)) kept).
    { apply Forall_firstn_skipn. unfold raw. clear.
      induction (Z.to_nat (Number d)); simpl; constructor; trivial. }
    apply Forall_eq_repeat in Hall. rewrite Hall. f_equal.
    unfold kept, raw. rewrite length_firstn, length_skipn, repeat_length.
    unfold k. lia. }
  assert (Hval : Value (split_sorted d raw) = k * Sides d).
  { change (Value (split_sorted d raw)) with (sum (Kept (split_sorted d raw))).
    rewrite Hkept, sum_repeat, Z2Nat.id; [reflexivity|unfold k; lia]. }
  exists (split_sorted d raw). repeat split; trivial.
  unfold RollRand, bind. rewrite Hrun. unfold ret. now rewrite Hval.
Qed.

Lemma RollResults_mockMaxRand_witness :
  wf_Dice (mkDice 2 20 0 0) /\ can_roll (mkDice 2 20 0 0) /\ 1 <= 20 /\
  exists res,
    @RollResults unit mockMaxRand (mkMem (mkDice 2 20 0 0) tt)
      = (Ok res, mkMem (mkDice 2 20 0 0) tt) /\
    Raw res = [20; 20] /\
    Kept res = [20; 20] /\
    Value res = 40 /\
    @RollRand unit mockMaxRand (mkMem (mkDice 2 20 0 0) tt)
      = (Ok 40, mkMem (mkDice 2 20 0 0) tt).
Proof.
  assert (Hwf : wf_Dice (mkDice 2 20 0 0))
    by (unfold wf_Dice, Int.is_int; rewrite MinInt_eq, MaxInt_eq; simpl; lia).
  assert (Hc : can_roll (mkDice 2 20 0 0)) by (unfold can_roll; rewrite maxCap_eq; simpl; lia).
  assert (Hs : 1 <= 20) by lia.
  split; [exact Hwf|]. split; [exact Hc|]. split; [exact Hs|].
  exact (RollResults_mockMaxRand (mkDice 2 20 0 0) Hwf Hc Hs).
Defined.

Lemma mockIterRand_Intn_run (n r : Z) :
  @Intn Z mockIterRand n r =
  if n =? 0 then (Panic IntegerDivideByZero, r)
  else (Ok (Int.rem r n), Int.add r 1).
Proof.
  cbn [Intn mockIterRand]. unfold bind, get. now destruct (n =? 0).
Qed.

Lemma mockIterRand_Intn_step (n r : Z) :
  0 < n <= Int.MaxInt -> 0 <= r < Int.MaxInt ->
  @Intn Z mockIterRand n r = (Ok (r mod n), r + 1).
Proof.
  intros Hn Hr. rewrite mockIterRand_Intn_run.
  replace (n =? 0) with false by (symmetry; apply Z.eqb_neq; lia).
  pose proof (Z.mod_pos_bound r n ltac:(lia)) as Hmod.
  unfold Int.rem, Int.add. rewrite Z.rem_mod_nonneg by lia.
  rewrite !wrap_id by (int_bounds; lia). reflexivity.
Qed.

(** X5. [mockIterRand.Intn]: on the bound 0 it panics with a division by
    zero and keeps its counter; on a positive bound and a counter in
    [[0, MaxInt)] it returns the counter modulo the bound, a value of
    [[0, n)], and advances the counter by one; at [MaxInt] the counter wraps
    to [MinInt]; on a negative counter the value returned lies in
    [(-n, 0]] and is 0 only when the bound divides the counter. So the mock
    does not keep the contract of [Intn] in every state. *)
Theorem mockIterRand_Intn :
  (forall r, @Intn Z mockIterRand 0 r = (Panic IntegerDivideByZero, r)) /\
  (forall n r, 0 < n <= Int.MaxInt -> 0 <= r < Int.MaxInt ->
     @Intn Z mockIterRand n r = (Ok (r mod n), r + 1) /\ 0 <= r mod n < n) /\
  (forall n, n <> 0 -> snd (@Intn Z mockIterRand n Int.MaxInt) = Int.MinInt) /\
  (forall n r, 0 < n <= Int.MaxInt -> Int.MinInt <= r < 0 ->
     exists v, fst (@Intn Z mockIterRand n r) = Ok v /\
               - n < v <= 0 /\ (v = 0 <-> r mod n = 0)) /\
  ~ in_range mockIterRand.
Proof.
  split; [|split; [|split; [|split]]].
  - intros r. now rewrite mockIterRand_Intn_run.
  - intros n r Hn Hr. split; [|apply Z.mod_pos_bound; lia].
    now apply mockIterRand_Intn_step.
  - intros n Hn. rewrite mockIterRand_Intn_run.
    replace (n =? 0) with false by (symmetry; now apply Z.eqb_neq).
    reflexivity.
  - intros n r Hn Hr. rewrite mockIterRand_Intn_run.
    replace (n =? 0) with false by (symmetry; apply Z.eqb_neq; lia).
    pose proof (Z.rem_bound_pos (- r) n ltac:(lia) ltac:(lia)) as Hb.
    rewrite Z.rem_opp_l in Hb by lia.
    exists (Z.rem r n). split; [|split; [lia|]].
    + simpl. unfold Int.rem. rewrite wrap_id; [reflexivity|]. int_bounds. lia.
    + rewrite Z.rem_divide, Z.mod_divide by lia. reflexivity.
  - intros H. destruct (H 2 (-1)) as (v & Hv & Hr);
      [rewrite MaxInt_eq; lia|].
    vm_compute in Hv. injection Hv as <-. lia.
Qed.

Lemma mockIterRand_Intn_witness :
  @Intn Z mockIterRand 0 3 = (Panic IntegerDivideByZero, 3) /\
  (@Intn Z mockIterRand 5 7 = (Ok (7 mod 5), 7 + 1) /\ 0 <= 7 mod 5 < 5) /\
  snd (@Intn Z mockIterRand 5 Int.MaxInt) = Int.MinInt /\
  (exists v, fst (@Intn Z mockIterRand 5 (-7)) = Ok v /\
             - 5 < v <= 0 /\ (v = 0 <-> (-7) mod 5 = 0)).
Proof.
  split; [|split; [|split]].
  - exact (proj1 mockIterRand_Intn 3).
  - apply (proj1 (proj2 mockIterRand_Intn) 5 7); rewrite MaxInt_eq; lia.
  - apply (proj1 (proj2 (proj2 mockIterRand_Intn)) 5). lia.
  - apply (proj1 (proj2 (proj2 (proj2 mockIterRand_Intn))) 5 (-7));
      rewrite ?MinInt_eq, ?MaxInt_eq; lia.
Defined.

(** *** Consecutive integers *)

Lemma upto_length (a : Z) (n : nat) : List.length (upto a n) = n.
Proof. revert a. induction n as [|n IH]; intros a; simpl; [|rewrite IH]; reflexivity. Qed.

Lemma upto_sorted (a : Z) (n : nat) : Sorted Z.le (upto a n).
Proof.
  revert a. induction n as [|n IH]; intros a; simpl; constructor.
  - apply IH.
  - destruct n; simpl; constructor. lia.
Qed.

Lemma upto_firstn (a : Z) (n m : nat) :
  (n <= m)%nat -> firstn n (upto a m) = upto a n.
Proof.
  revert a m. induction n as [|n IH]; intros a m Hle; [reflexivity|].
  destruct m as [|m]; [lia|]. simpl. rewrite IH by lia. reflexivity.
Qed.

Lemma upto_skipn (a : Z) (n m : nat) :
  (n <= m)%nat -> skipn n (upto a m) = upto (a + Z.of_nat n) (m - n).
Proof.
  revert a m. induction n as [|n IH]; intros a m Hle.
  - simpl. rewrite Z.add_0_r, Nat.sub_0_r. reflexivity.
  - destruct m as [|m]; [lia|]. simpl skipn. rewrite IH by lia.
    rewrite Nat2Z.inj_succ. simpl. f_equal. lia.
Qed.

Lemma upto_sum (a : Z) (n : nat) :
  2 * sum (upto a n) = Z.of_nat n * (2 * a + Z.of_nat n - 1).
Proof.
  revert a. induction n as [|n IH]; intros a; [reflexivity|].
  change (sum (upto a (Datatypes.S n))) with (a + sum (upto (a + 1) n)).
  rewrite Nat2Z.inj_succ. specialize (IH (a + 1)). nia.
Qed.

Lemma upto_map (f : Z -> Z) (c : Z) (a : Z) (n : nat) :
  (forall v, a <= v < a + Z.of_nat n -> f v = v + c) ->
  map f (upto a n) = upto (a + c) n.
Proof.
  revert a. induction n as [|n IH]; intros a Hf; [reflexivity|].
  simpl. rewrite Hf by lia. f_equal.
  replace (a + c + 1) with (a + 1 + c) by lia.
  apply IH. intros v Hv. apply Hf. lia.
Qed.

Lemma mockIterRand_calls (n : nat) (b : Z) :
  0 < b <= Int.MaxInt ->
  forall r, 0 <= r -> r + Z.of_nat n <= Int.MaxInt ->
    calls n (@Intn Z mockIterRand b) r
      = (Ok (map (fun v => v mod b) (upto r n)), r + Z.of_nat n).
Proof.
  intros Hb. induction n as [|n IH]; intros r Hr Hmax.
  - simpl. unfold ret. now rewrite Z.add_0_r.
  - cbn [calls]. unfold bind at 1.
    rewrite mockIterRand_Intn_step by lia.
    unfold bind. rewrite IH by lia. unfold ret. simpl. f_equal. lia.
Qed.

(** X6. With [mockIterRand] at a counter [r >= 0], a specification that a
    roll can take (so with [Number <= maxCap]) and no more dice than fit
    below [Sides] from there ([r + Number <= Sides]), the dice show
    [r+1, ..., r+Number] in this order: [Raw] is that run, [DroppedLow] its
    first [DropLow] values, [DroppedHigh] its last [DropHigh] values, [Kept]
    the run in between, the total is the sum of that run, and the counter
    ends at [r + Number]. *)
Theorem RollResults_mockIterRand (d : Dice) (r : Z) :
  wf_Dice d -> can_roll d -> 1 <= Sides d ->
  0 <= r -> r + Number d <= Sides d ->
  let k := Number d - DropLow d - DropHigh d in
  exists res,
    @RollResults Z mockIterRand (mkMem d r)
      = (Ok res, mkMem d (r + Number d)) /\
    Raw res = upto (r + 1) (Z.to_nat (Number d)) /\
    elems (DroppedLow res) = upto (r + 1) (Z.to_nat (DropLow d)) /\
    Kept res = upto (r + 1 + DropLow d) (Z.to_nat k) /\
    elems (DroppedHigh res)
      = upto (r + 1 + Number d - DropHigh d) (Z.to_nat (DropHigh d)) /\
    2 * Value res = k * (2 * (r + DropLow d) + k + 1).
Proof.
  intros Hwf Hc Hs Hr Hfit k. unfold can_roll in Hc.
  assert (HS : 0 < Sides d <= Int.MaxInt) by (int_bounds; lia).
  set (n := Z.to_nat (Number d)).
  assert (Hn : Z.of_nat n = Number d) by (unfold n; lia).
  assert (Hdraw : @draw Z mockIterRand n [] (mkMem d r)
                  = (Ok (upto (r + 1) n), mkMem d (r + Number d))).
  { rewrite (draw_calls mockIterRand), mockIterRand_calls by lia.
    simpl app. rewrite map_map, Hn. repeat f_equal.
    apply upto_map. intros v Hv.
    rewrite Z.mod_small by lia. unfold Int.add. apply wrap_id.
    int_bounds. lia. }
  pose proof (RollResults_after_draw mockIterRand d r _ _ Hwf Hc Hdraw) as Hrun.
  rewrite (sort_Ints_id _ (upto_sorted _ _)) in Hrun.
  exists (split_sorted d (upto (r + 1) n)).
  assert (Hkept : Kept (split_sorted d (upto (r + 1) n))
                  = upto (r + 1 + DropLow d) (Z.to_nat k)).
  { simpl. rewrite upto_skipn by lia. rewrite upto_firstn by lia.
    f_equal; unfold k; lia. }
  split; [exact Hrun|]. split; [reflexivity|]. split; [|split; [exact Hkept|split]].
  - simpl. destruct (Z.gtb_spec (DropLow d) 0).
    + simpl. apply upto_firstn. lia.
    + replace (Z.to_nat (DropLow d)) with 0%nat by lia. reflexivity.
  - simpl. destruct (Z.gtb_spec (DropHigh d) 0).
    + simpl. rewrite upto_skipn by lia. f_equal; lia.
    + replace (Z.to_nat (DropHigh d)) with 0%nat by lia. reflexivity.
  - change (Value (split_sorted d (upto (r + 1) n)))
      with (sum (Kept (split_sorted d (upto (r + 1) n)))).
    rewrite Hkept, upto_sum. rewrite Z2Nat.id by (unfold k; lia). lia.
Qed.

Lemma RollResults_mockIterRand_witness :
  wf_Dice (mkDice 5 20 2 2) /\ can_roll (mkDice 5 20 2 2) /\ 1 <= 20 /\
  0 <= 0 /\ 0 + 5 <= 20 /\
  exists res,
    @RollResults Z mockIterRand (mkMem (mkDice 5 20 2 2) 0)
      = (Ok res, mkMem (mkDice 5 20 2 2) 5) /\
    Raw res = [1; 2; 3; 4; 5] /\
    elems (DroppedLow res) = [1; 2] /\
    Kept res = [3] /\
    elems (DroppedHigh res) = [4; 5] /\
    2 * Value res = 1 * (2 * (0 + 2) + 1 + 1).
Proof.
  assert (Hwf : wf_Dice (mkDice 5 20 2 2))
    by (unfold wf_Dice, Int.is_int; rewrite MinInt_eq, MaxInt_eq; simpl; lia).
  assert (Hc : can_roll (mkDice 5 20 2 2)) by (unfold can_roll; rewrite maxCap_eq; simpl; lia).
  assert (Hs : 1 <= 20) by lia.
  assert (Hr : 0 <= 0) by lia.
  assert (Hfit : 0 + 5 <= 20) by lia.
  split; [exact Hwf|]. split; [exact Hc|]. split; [exact Hs|].
  split; [exact Hr|]. split; [exact Hfit|].
  exact (RollResults_mockIterRand (mkDice 5 20 2 2) 0 Hwf Hc Hs Hr Hfit).
Defined.

(** ** What [Validate] accepts, and the constructors *)

Lemma Validate_accepts_exact (d : Dice) :
  wf_Dice d ->
  (Validate d = (Ok None, d) <->
   1 <= Number d /\ 2 <= Sides d /\ 0 <= DropLow d /\ 0 <= DropHigh d /\
   (DropLow d + DropHigh d < Number d \/ Int.MaxInt < DropLow d + DropHigh d)).
Proof.
  intros Hwf. rewrite Validate_run.
  destruct (Z.ltb_spec (Number d) 1); [split; [discriminate|lia]|].
  destruct (Z.leb_spec (Sides d) 1); [split; [discriminate|lia]|].
  destruct (Z.ltb_spec (DropLow d) 0); [split; [discriminate|lia]|].
  destruct (Z.ltb_spec (DropHigh d) 0); [split; [discriminate|lia]|].
  rewrite Z.geb_leb. unfold Int.add.
  destruct (Z.le_gt_cases (DropLow d + DropHigh d) Int.MaxInt) as [Hin|Hout].
  - rewrite wrap_id by (int_bounds; lia).
    destruct (Z.leb_spec (Number d) (DropLow d + DropHigh d));
      [split; [discriminate|lia]|split; [lia|reflexivity]].
  - pose proof (wrap_above (DropLow d + DropHigh d)) as Hw.
    replace (Number d <=? Int.wrap (DropLow d + DropHigh d)) with false.
    + split; [lia|reflexivity].
    + symmetry. apply Z.leb_gt. int_bounds. lia.
Qed.

(** X7. [Validate] accepts exactly the specifications with [Number >= 1],
    [Sides >= 2], [DropLow >= 0], [DropHigh >= 0] and either
    [DropLow + DropHigh < Number] or a sum [DropLow + DropHigh] beyond
    [MaxInt]. *)
Theorem Validate_accepts_iff (d : Dice) :
  wf_Dice d ->
  (Validate d = (Ok None, d) <->
   1 <= Number d /\ 2 <= Sides d /\ 0 <= DropLow d /\ 0 <= DropHigh d /\
   (DropLow d + DropHigh d < Number d \/ Int.MaxInt < DropLow d + DropHigh d)).
Proof. exact (Validate_accepts_exact d). Qed.

Lemma Validate_accepts_iff_witness :
  wf_Dice (mkDice 5 20 3 1) /\
  (Validate (mkDice 5 20 3 1) = (Ok None, mkDice 5 20 3 1) <->
   1 <= 5 /\ 2 <= 20 /\ 0 <= 3 /\ 0 <= 1 /\
   (3 + 1 < 5 \/ Int.MaxInt < 3 + 1)).
Proof.
  assert (Hwf : wf_Dice (mkDice 5 20 3 1))
    by (unfold wf_Dice, Int.is_int; rewrite MinInt_eq, MaxInt_eq; simpl; lia).
  split; [exact Hwf|]. exact (Validate_accepts_iff (mkDice 5 20 3 1) Hwf).
Defined.

(** X8. For [int] arguments, [NewExt] returns a specification, with exactly
    the arguments as its fields and a nil error, if and only if [num >= 1],
    [sides >= 2], [droplow >= 0], [drophigh >= 0] and either
    [droplow + drophigh < num] or the sum [droplow + drophigh] is beyond
    [MaxInt]; on all other arguments it returns a nil specification and an
    error. *)
Theorem NewExt_succeeds_iff (num sides droplow drophigh : Z) :
  wf_Dice (mkDice num sides droplow drophigh) ->
  let accepted :=
    1 <= num /\ 2 <= sides /\ 0 <= droplow /\ 0 <= drophigh /\
    (droplow + drophigh < num \/ Int.MaxInt < droplow + drophigh) in
  ((exists d, NewExt num sides droplow drophigh = Ok (Some d, None))
   <-> accepted) /\
  (accepted ->
   NewExt num sides droplow drophigh
     = Ok (Some (mkDice num sides droplow drophigh), None)) /\
  (~ accepted ->
   exists err, NewExt num sides droplow drophigh = Ok (None, Some err)).
Proof.
  intros Hwf accepted.
  pose proof (Validate_accepts_exact _ Hwf) as Hacc. simpl in Hacc.
  fold accepted in Hacc.
  pose proof (Validate_preserves (mkDice num sides droplow drophigh)) as Hfr.
  unfold NewExt. cbv zeta.
  destruct (Validate (mkDice num sides droplow drophigh))
    as [[[err|]|p] d'] eqn:Hval; simpl in Hfr; subst d'.
  - assert (Hno : ~ accepted)
      by (intros Hyes; apply Hacc in Hyes; discriminate).
    split; [|split].
    + split; [intros (d & Hd); discriminate|intros Hyes; contradiction].
    + intros Hyes. contradiction.
    + intros _. now exists err.
  - assert (Hyes : accepted) by (now apply Hacc).
    split; [|split].
    + split; [intros _; exact Hyes|intros _; eexists; reflexivity].
    + reflexivity.
    + intros Hno. contradiction.
  - rewrite Validate_run in Hval. discriminate.
Qed.

Lemma NewExt_succeeds_iff_witness :
  wf_Dice (mkDice 5 20 3 1) /\
  ((exists d, NewExt 5 20 3 1 = Ok (Some d, None))
   <-> (1 <= 5 /\ 2 <= 20 /\ 0 <= 3 /\ 0 <= 1 /\
        (3 + 1 < 5 \/ Int.MaxInt < 3 + 1))) /\
  (1 <= 5 /\ 2 <= 20 /\ 0 <= 3 /\ 0 <= 1 /\
   (3 + 1 < 5 \/ Int.MaxInt < 3 + 1) ->
   NewExt 5 20 3 1 = Ok (Some (mkDice 5 20 3 1), None)) /\
  (~ (1 <= 5 /\ 2 <= 20 /\ 0 <= 3 /\ 0 <= 1 /\
      (3 + 1 < 5 \/ Int.MaxInt < 3 + 1)) ->
   exists err, NewExt 5 20 3 1 = Ok (None, Some err)).
Proof.
  assert (Hwf : wf_Dice (mkDice 5 20 3 1))
    by (unfold wf_Dice, Int.is_int; rewrite MinInt_eq, MaxInt_eq; simpl; lia).
  split; [exact Hwf|]. exact (NewExt_succeeds_iff 5 20 3 1 Hwf).
Defined.

(** X9. [New] can only fail on its two arguments: it returns the
    number-too-low error when [num < 1], else the sides-too-low error when
    [sides <= 1], else the specification [{num, sides, 0, 0}]; the checks
    on the drop counts never fire. *)
Theorem New_outcomes (num sides : Z) :
  Int.is_int num ->
  New num sides =
  Ok (if num <? 1 then (None, Some (ErrNumberTooLow num))
      else if sides <=? 1 then (None, Some (ErrSidesTooLow sides))
      else (Some (mkDice num sides 0 0), None)).
Proof. exact (New_run num sides). Qed.

Lemma New_outcomes_witness :
  Int.is_int 2 /\
  New 2 1 =
  Ok (if 2 <? 1 then (None, Some (ErrNumberTooLow 2))
      else if 1 <=? 1 then (None, Some (ErrSidesTooLow 1))
      else (Some (mkDice 2 1 0 0), None)).
Proof.
  assert (H2 : Int.is_int 2)
    by (unfold Int.is_int; rewrite MinInt_eq, MaxInt_eq; lia).
  split; [exact H2|]. exact (New_outcomes 2 1 H2).
Defined.

(** X10. A specification that [NewExt] returns for drop counts whose sum
    fits an [int] is valid and, when its number of dice is a capacity that
    [make] accepts, rolling it with a source that keeps the contract of
    [Intn] returns, with at least one die kept. *)
Theorem NewExt_then_RollResults {S : Type} (R : Rand S)
    (num sides droplow drophigh : Z) (d : Dice) (s : S) :
  wf_Dice (mkDice num sides droplow drophigh) ->
  droplow + drophigh <= Int.MaxInt ->
  num <= maxCap ->
  in_range R ->
  NewExt num sides droplow drophigh = Ok (Some d, None) ->
  d = mkDice num sides droplow drophigh /\
  valid d /\
  exists res s',
    RollResults (mkMem d s) = (Ok res, mkMem d s') /\
    1 <= len (Kept res) /\
    len (Kept res) <= Value res <= len (Kept res) * sides.
Proof.
  intros Hwf Hsum Hcap HR Hnew.
  unfold NewExt in Hnew. cbv zeta in Hnew.
  pose proof (Validate_preserves (mkDice num sides droplow drophigh)) as Hfr.
  destruct (Validate (mkDice num sides droplow drophigh))
    as [[[err|]|p] d'] eqn:Hval; try discriminate.
  injection Hnew as <-. simpl in Hfr. subst d'.
  apply (Validate_accepts_exact _ Hwf) in Hval. simpl in Hval.
  assert (Hv : valid (mkDice num sides droplow drophigh))
    by (unfold valid; simpl; lia).
  split; [reflexivity|]. split; [exact Hv|].
  destruct (RollResults_run R HR _ s Hwf Hv Hcap)
    as (draws & s' & _ & Hlen & Hall & Hrun).
  exists (split_sorted (mkDice num sides droplow drophigh) (sort_Ints draws)), s'.
  split; [exact Hrun|].
  pose proof (split_sorted_Value_bounds _ draws Hwf Hv Hlen Hall) as Hb.
  cbv zeta in Hb. simpl in Hlen, Hb |- *.
  set (kept := firstn _ _) in *.
  assert (Hk : len kept = num - droplow - drophigh).
  { unfold kept, len. rewrite length_firstn, length_skipn, sort_Ints_length.
    unfold len in Hlen. lia. }
  rewrite Hk. lia.
Qed.

Lemma NewExt_then_RollResults_witness :
  wf_Dice (mkDice 5 20 2 1) /\ 2 + 1 <= Int.MaxInt /\ 5 <= maxCap /\
  in_range mockMaxRand /\
  NewExt 5 20 2 1 = Ok (Some (mkDice 5 20 2 1), None) /\
  mkDice 5 20 2 1 = mkDice 5 20 2 1 /\
  valid (mkDice 5 20 2 1) /\
  exists res s',
    RollResults (mkMem (mkDice 5 20 2 1) tt)
      = (Ok res, mkMem (mkDice 5 20 2 1) s') /\
    1 <= len (Kept res) /\
    len (Kept res) <= Value res <= len (Kept res) * 20.
Proof.
  assert (Hwf : wf_Dice (mkDice 5 20 2 1))
    by (unfold wf_Dice, Int.is_int; rewrite MinInt_eq, MaxInt_eq; simpl; lia).
  assert (Hsum : 2 + 1 <= Int.MaxInt) by (rewrite MaxInt_eq; lia).
  assert (Hnew : NewExt 5 20 2 1 = Ok (Some (mkDice 5 20 2 1), None))
    by reflexivity.
  assert (Hcap : 5 <= maxCap) by (rewrite maxCap_eq; lia).
  split; [exact Hwf|]. split; [exact Hsum|]. split; [exact Hcap|].
  split; [exact mockMaxRand_in_range|]. split; [exact Hnew|].
  exact (NewExt_then_RollResults mockMaxRand 5 20 2 1 (mkDice 5 20 2 1) tt
           Hwf Hsum Hcap mockMaxRand_in_range Hnew).
Defined.

(** ** Rolls outside the validated specifications *)

Lemma split_sorted_kept (d : Dice) (draws : list Z) :
  can_roll d ->
  len draws = Number d ->
  Forall (fun v => 1 <= v <= Sides d) draws ->
  let k := Number d - DropLow d - DropHigh d in
  len (Kept (split_sorted d (sort_Ints draws))) = k /\
  k <= Value (split_sorted d (sort_Ints draws)) <= k * Sides d.
Proof.
  intros Hc Hlen Hall k. unfold can_roll in Hc. simpl.
  set (kept := firstn _ _).
  assert (Hkept : len kept = k).
  { unfold kept, len. rewrite length_firstn, length_skipn, sort_Ints_length.
    unfold len in Hlen. unfold k. lia. }
  split; [exact Hkept|].
  assert (Hin : Forall (fun v => 1 <= v <= Sides d) kept)
    by (apply Forall_firstn_skipn, sort_Ints_Forall, Hall).
  apply sum_bounds in Hin. rewrite Hkept in Hin. lia.
Qed.

(** X11. A specification that drops all its dice
    ([DropLow + DropHigh = Number], which [Validate] rejects) does not make
    the roll panic as long as [make] accepts its number of dice: the dice
    are drawn and sorted, [Kept] is empty and the total is 0. *)
Theorem RollResults_all_dropped {S : Type} (R : Rand S) (d : Dice) (s : S) :
  wf_Dice d -> in_range R -> 1 <= Sides d ->
  0 <= DropLow d -> 0 <= DropHigh d ->
  DropLow d + DropHigh d = Number d ->
  Number d <= maxCap ->
  (exists err, Validate d = (Ok (Some err), d)) /\
  exists res s',
    RollResults (mkMem d s) = (Ok res, mkMem d s') /\
    len (Raw res) = Number d /\
    Kept res = [] /\
    Value res = 0.
Proof.
  intros Hwf HR Hs Hlow Hhigh Hall Hcap. split.
  - pose proof (Validate_accepts_exact d Hwf) as Hacc.
    rewrite Validate_run in *.
    match goal with
    | |- context [(Ok ?e, d)] => destruct e as [err|]
    end; [now exists err|].
    exfalso. destruct Hacc as [Hacc _]. specialize (Hacc eq_refl).
    int_bounds. lia.
  - assert (Hc : can_roll d) by (unfold can_roll; lia).
    assert (Hsides : 0 < Sides d <= Int.MaxInt) by (int_bounds; lia).
    destruct (draw_run R HR (Z.to_nat (Number d)) d Hsides [] s)
      as (draws & s' & Hrun & Hlen & Hfaces).
    simpl in Hrun.
    assert (Hl : len draws = Number d) by (unfold len; lia).
    exists (split_sorted d (sort_Ints draws)), s'.
    split; [now apply RollResults_after_draw|].
    destruct (split_sorted_kept d draws Hc Hl Hfaces) as [Hk Hv].
    cbv zeta in Hk, Hv. split; [|split].
    + simpl. unfold len in *. now rewrite sort_Ints_length.
    + apply length_zero_iff_nil. unfold len in Hk. lia.
    + lia.
Qed.

Lemma RollResults_all_dropped_witness :
  wf_Dice (mkDice 2 20 1 1) /\ in_range mockMaxRand /\ 1 <= 20 /\
  0 <= 1 /\ 0 <= 1 /\ 1 + 1 = 2 /\ 2 <= maxCap /\
  (exists err, Validate (mkDice 2 20 1 1) = (Ok (Some err), mkDice 2 20 1 1)) /\
  exists res s',
    RollResults (mkMem (mkDice 2 20 1 1) tt)
      = (Ok res, mkMem (mkDice 2 20 1 1) s') /\
    len (Raw res) = 2 /\
    Kept res = [] /\
    Value res = 0.
Proof.
  assert (Hwf : wf_Dice (mkDice 2 20 1 1))
    by (unfold wf_Dice, Int.is_int; rewrite MinInt_eq, MaxInt_eq; simpl; lia).
  assert (Hs : 1 <= 20) by lia.
  assert (H1 : 0 <= 1) by lia.
  assert (Hall : 1 + 1 = 2) by reflexivity.
  assert (Hcap : 2 <= maxCap) by (rewrite maxCap_eq; lia).
  split; [exact Hwf|]. split; [exact mockMaxRand_in_range|].
  split; [exact Hs|]. split; [exact H1|]. split; [exact H1|].
  split; [exact Hall|]. split; [exact Hcap|].
  exact (RollResults_all_dropped mockMaxRand (mkDice 2 20 1 1) tt
           Hwf mockMaxRand_in_range Hs H1 H1 Hall Hcap).
Defined.

(** X12. [Roll], the roll on the package's [StdRand]: as long as
    [rand.Intn] returns a value of [[0, n)] on a positive [n], it returns on
    every specification that a roll can take (so with [Number <= maxCap]),
    leaves the specification as it was, and its total lies between [k] and
    [k * Sides] for the
    [k = Number - DropLow - DropHigh] dice kept. *)
Theorem Roll_total (gen : Type) (rand_Intn : Z -> gen -> Z * gen)
    (d : Dice) (g : gen) :
  (forall n g, 0 < n -> 0 <= fst (rand_Intn n g) < n) ->
  wf_Dice d -> can_roll d -> 1 <= Sides d ->
  let k := Number d - DropLow d - DropHigh d in
  exists v g',
    Roll gen rand_Intn (mkMem d g) = (Ok v, mkMem d g') /\
    k <= v <= k * Sides d.
Proof.
  intros Hgen Hwf Hc Hs k.
  pose proof (stdRand_in_range gen rand_Intn Hgen) as HR.
  assert (Hsides : 0 < Sides d <= Int.MaxInt) by (int_bounds; lia).
  destruct (draw_run (stdRand gen rand_Intn) HR (Z.to_nat (Number d)) d
              Hsides [] g) as (draws & g' & Hrun & Hlen & Hfaces).
  simpl in Hrun.
  assert (Hl : len draws = Number d) by (unfold can_roll in Hc; unfold len; lia).
  exists (Value (split_sorted d (sort_Ints draws))), g'. split.
  - unfold Roll, RollRand, bind.
    now rewrite (RollResults_after_draw _ d g draws _ Hwf Hc Hrun).
  - apply (split_sorted_kept d draws Hc Hl Hfaces).
Qed.

Lemma Roll_total_witness :
  (forall n g, 0 < n -> 0 <= fst ((fun (m : Z) (u : unit) => (m - 1, u)) n g) < n) /\
  wf_Dice (mkDice 2 20 0 0) /\ can_roll (mkDice 2 20 0 0) /\ 1 <= 20 /\
  exists v g',
    Roll unit (fun m u => (m - 1, u)) (mkMem (mkDice 2 20 0 0) tt)
      = (Ok v, mkMem (mkDice 2 20 0 0) g') /\
    2 - 0 - 0 <= v <= (2 - 0 - 0) * 20.
Proof.
  assert (Hgen : forall n g, 0 < n ->
            0 <= fst ((fun (m : Z) (u : unit) => (m - 1, u)) n g) < n)
    by (intros n g Hn; simpl; lia).
  assert (Hwf : wf_Dice (mkDice 2 20 0 0))
    by (unfold wf_Dice, Int.is_int; rewrite MinInt_eq, MaxInt_eq; simpl; lia).
  assert (Hc : can_roll (mkDice 2 20 0 0)) by (unfold can_roll; rewrite maxCap_eq; simpl; lia).
  assert (Hs : 1 <= 20) by lia.
  split; [exact Hgen|]. split; [exact Hwf|]. split; [exact Hc|].
  split; [exact Hs|].
  exact (Roll_total unit (fun m u => (m - 1, u)) (mkDice 2 20 0 0) tt
           Hgen Hwf Hc Hs).
Defined.

(** ** Numbers in messages and short-hands *)

Lemma uint_digits (u : Decimal.uint) :
  all_digits (NilEmpty.string_of_uint u) = true.
Proof.
  induction u as [|u IH|u IH|u IH|u IH|u IH|u IH|u IH|u IH|u IH|u IH];
    [reflexivity|..];
    cbn [NilEmpty.string_of_uint all_digits]; rewrite IH; reflexivity.
Qed.

Lemma uint_numeral (u : Decimal.uint) :
  all_digits (NilZero.string_of_uint u) = true /\
  NilZero.string_of_uint u <> EmptyString.
Proof.
  split.
  - destruct u; try reflexivity; apply (uint_digits (_ u)).
  - destruct u; discriminate.
Qed.

Lemma itoa_shape (z : Z) :
  exists s, all_digits s = true /\ s <> EmptyString /\
            (Int.itoa z = s \/ Int.itoa z = String.String "-" s).
Proof.
  unfold Int.itoa. destruct z as [|p|p]; simpl Z.to_int.
  - exists "0"%string. repeat split; [discriminate|now left].
  - exists (NilZero.string_of_uint (Pos.to_uint p)).
    destruct (uint_numeral (Pos.to_uint p)). repeat split; trivial. now left.
  - exists (NilZero.string_of_uint (Pos.to_uint p)).
    destruct (uint_numeral (Pos.to_uint p)). repeat split; trivial. now right.
Qed.

Lemma itoa_inj (a b : Z) : Int.itoa a = Int.itoa b -> a = b.
Proof.
  unfold Int.itoa. intros H. apply DecimalZ.to_int_inj.
  assert (Hnn : forall z, Z.to_int z <> Decimal.Pos Decimal.Nil /\
                          Z.to_int z <> Decimal.Neg Decimal.Nil).
  { intros [|p|p]; simpl; split; try discriminate;
      intros [= Hp]; now apply (DecimalPos.Unsigned.to_uint_nonnil p). }
  assert (Hs : Some (Z.to_int a) = Some (Z.to_int b)).
  { rewrite <- (NilZero.isi (Z.to_int a)), <- (NilZero.isi (Z.to_int b));
      try apply Hnn. now rewrite H. }
  now injection Hs.
Qed.

Lemma digits_split (a1 a2 t1 t2 : string) :
  all_digits a1 = true -> all_digits a2 = true -> stops t1 -> stops t2 ->
  (a1 ++ t1 = a2 ++ t2)%string -> a1 = a2 /\ t1 = t2.
Proof.
  revert a2. induction a1 as [|c1 a1 IH]; intros [|c2 a2] H1 H2 S1 S2 H;
    simpl in *.
  - now split.
  - subst t1. simpl in S1. apply andb_prop in H2 as [H2 _]. congruence.
  - subst t2. simpl in S2. apply andb_prop in H1 as [H1 _]. congruence.
  - injection H as -> H.
    apply andb_prop in H1 as [_ H1]. apply andb_prop in H2 as [_ H2].
    destruct (IH a2 H1 H2 S1 S2 H) as [-> ->]. now split.
Qed.

(** A number printed in front of something that cannot continue it is read
    back without doubt. *)
Lemma itoa_prefix (a b : Z) (t1 t2 : string) :
  stops t1 -> stops t2 ->
  (Int.itoa a ++ t1 = Int.itoa b ++ t2)%string -> a = b /\ t1 = t2.
Proof.
  intros S1 S2 H.
  destruct (itoa_shape a) as (sa & Da & Na & Ha).
  destruct (itoa_shape b) as (sb & Db & Nb & Hb).
  assert (Hminus : forall s t s' t',
             all_digits s = true -> s <> EmptyString ->
             (s ++ t = String.String "-" s' ++ t')%string -> False).
  { intros [|c s] t s' t' Hd Hn Heq; [now apply Hn|].
    simpl in Heq. injection Heq as -> _. discriminate. }
  destruct Ha as [Ha|Ha], Hb as [Hb|Hb]; rewrite Ha, Hb in H.
  - destruct (digits_split _ _ _ _ Da Db S1 S2 H) as [Hs ->].
    split; [|reflexivity]. apply itoa_inj. congruence.
  - exact (False_ind _ (Hminus _ _ _ _ Da Na H)).
  - exact (False_ind _ (Hminus _ _ _ _ Db Nb (eq_sym H))).
  - simpl in H. injection H as H.
    destruct (digits_split _ _ _ _ Da Db S1 S2 H) as [Hs ->].
    split; [|reflexivity]. apply itoa_inj. congruence.
Qed.

Lemma append_cancel_l (p x y : string) : (p ++ x = p ++ y)%string -> x = y.
Proof.
  induction p as [|c p IH]; simpl; intros H; [exact H|].
  injection H as H. now apply IH.
Qed.

Ltac read_numbers :=
  repeat match goal with
  | H : (String.String _ _ = String.String _ _) |- _ =>
      first [discriminate H | injection H as H]
  | H : (EmptyString = String.String _ _) |- _ => discriminate H
  | H : (String.String _ _ = EmptyString) |- _ => discriminate H
  | H : (Int.itoa _ ++ _ = Int.itoa _ ++ _)%string |- _ =>
      apply itoa_prefix in H as [? H]; [|simpl; first [reflexivity|exact I]..]
  | H : Int.itoa _ = Int.itoa _ |- _ => apply itoa_inj in H
  end.

(** X13. The message of an error tells which rule was broken and with which
    values: each of the five constructors gives equal messages only for
    equal values, and two different constructors never give the same
    message. *)
Theorem errors_tell_rule_and_values :
  (forall a b, ErrNumberTooLow a = ErrNumberTooLow b <-> a = b) /\
  (forall a b, ErrSidesTooLow a = ErrSidesTooLow b <-> a = b) /\
  (forall a b, ErrDropLowTooLow a = ErrDropLowTooLow b <-> a = b) /\
  (forall a b, ErrDropHighTooLow a = ErrDropHighTooLow b <-> a = b) /\
  (forall l h n l' h' n',
      ErrTooManyDropped l h n = ErrTooManyDropped l' h' n'
      <-> l = l' /\ h = h' /\ n = n') /\
  (forall a b, ErrNumberTooLow a <> ErrSidesTooLow b) /\
  (forall a b, ErrNumberTooLow a <> ErrDropLowTooLow b) /\
  (forall a b, ErrNumberTooLow a <> ErrDropHighTooLow b) /\
  (forall a l h n, ErrNumberTooLow a <> ErrTooManyDropped l h n) /\
  (forall a b, ErrSidesTooLow a <> ErrDropLowTooLow b) /\
  (forall a b, ErrSidesTooLow a <> ErrDropHighTooLow b) /\
  (forall a l h n, ErrSidesTooLow a <> ErrTooManyDropped l h n) /\
  (forall a b, ErrDropLowTooLow a <> ErrDropHighTooLow b) /\
  (forall a l h n, ErrDropLowTooLow a <> ErrTooManyDropped l h n) /\
  (forall a l h n, ErrDropHighTooLow a <> ErrTooManyDropped l h n).
Proof.
  unfold ErrNumberTooLow, ErrSidesTooLow, ErrDropLowTooLow,
    ErrDropHighTooLow, ErrTooManyDropped.
  repeat match goal with |- _ /\ _ => split end;
    try (intros a b; split; [intros H|now intros ->];
         apply append_cancel_l in H; now apply itoa_inj);
    try (intros; intros H; simpl in H; read_numbers; fail).
  intros l h n l' h' n'. split; [intros H|now intros (-> & -> & ->)].
  apply append_cancel_l in H. read_numbers. simpl in H. read_numbers.
  simpl in H. read_numbers. now repeat split.
Qed.

(** ** The short-hand determines the specification *)

Lemma String_run (d : Dice) :
  String d
  = (Ok (Int.itoa (Number d) ++ "d" ++ Int.itoa (Sides d) ++ suffixes d)%string,
     d).
Proof.
  unfold String, suffixes, bind, get, ret. cbv zeta.
  destruct (DropLow d >? 0), (DropHigh d >? 0);
    rewrite ?append_empty_r; reflexivity.
Qed.

Lemma suffixes_stop (d : Dice) : stops (suffixes d).
Proof.
  unfold suffixes. destruct (DropLow d >? 0), (DropHigh d >? 0);
    simpl; trivial.
Qed.

Lemma suffixes_inj (d1 d2 : Dice) :
  0 <= DropLow d1 -> 0 <= DropHigh d1 ->
  0 <= DropLow d2 -> 0 <= DropHigh d2 ->
  suffixes d1 = suffixes d2 ->
  DropLow d1 = DropLow d2 /\ DropHigh d1 = DropHigh d2.
Proof.
  intros L1 H1 L2 H2 H. unfold suffixes in H.
  destruct (Z.gtb_spec (DropLow d1) 0), (Z.gtb_spec (DropHigh d1) 0),
    (Z.gtb_spec (DropLow d2) 0), (Z.gtb_spec (DropHigh d2) 0);
    simpl in H; read_numbers; try (simpl in H; read_numbers);
    split; lia.
Qed.

(** X14. Two specifications with non-negative drop counts that [String]
    prints alike are the same specification. *)
Theorem String_determines_Dice (d1 d2 : Dice) :
  0 <= DropLow d1 -> 0 <= DropHigh d1 ->
  0 <= DropLow d2 -> 0 <= DropHigh d2 ->
  fst (String d1) = fst (String d2) ->
  d1 = d2.
Proof.
  intros L1 H1 L2 H2 H. rewrite !String_run in H. simpl in H.
  injection H as H.
  apply itoa_prefix in H as [HN H]; [|simpl; reflexivity..].
  simpl in H. injection H as H.
  apply itoa_prefix in H as [HS H]; [|apply suffixes_stop..].
  destruct (suffixes_inj d1 d2 L1 H1 L2 H2 H) as [HL HH].
  destruct d1, d2; simpl in *; congruence.
Qed.

Lemma String_determines_Dice_witness :
  0 <= 2 /\ 0 <= 1 /\ 0 <= 2 /\ 0 <= 1 /\
  fst (String (mkDice 5 20 2 1)) = fst (String (mkDice 5 20 2 1)) /\
  mkDice 5 20 2 1 = mkDice 5 20 2 1.
Proof.
  assert (H2 : 0 <= 2) by lia.
  assert (H1 : 0 <= 1) by lia.
  split; [exact H2|]. split; [exact H1|]. split; [exact H2|].
  split; [exact H1|]. split; [reflexivity|].
  exact (String_determines_Dice (mkDice 5 20 2 1) (mkDice 5 20 2 1)
           H2 H1 H2 H1 eq_refl).
Defined.

(** ** The error of the first broken rule *)

(** X15. [Validate] reports the first rule that the specification breaks,
    with the values at fault: the number of dice below 1; else at most one
    side; else a negative low drop count; else a negative high drop count;
    else, for drop counts whose sum fits an [int], a sum that reaches the
    number of dice. *)
Theorem Validate_first_violation (d : Dice) :
  (Number d < 1 ->
   Validate d = (Ok (Some (ErrNumberTooLow (Number d))), d)) /\
  (1 <= Number d -> Sides d <= 1 ->
   Validate d = (Ok (Some (ErrSidesTooLow (Sides d))), d)) /\
  (1 <= Number d -> 1 < Sides d -> DropLow d < 0 ->
   Validate d = (Ok (Some (ErrDropLowTooLow (DropLow d))), d)) /\
  (1 <= Number d -> 1 < Sides d -> 0 <= DropLow d -> DropHigh d < 0 ->
   Validate d = (Ok (Some (ErrDropHighTooLow (DropHigh d))), d)) /\
  (1 <= Number d -> 1 < Sides d -> 0 <= DropLow d -> 0 <= DropHigh d ->
   Number d <= DropLow d + DropHigh d <= Int.MaxInt ->
   Validate d
     = (Ok (Some (ErrTooManyDropped (DropLow d) (DropHigh d) (Number d))), d)).
Proof.
  rewrite Validate_run.
  destruct (Z.ltb_spec (Number d) 1);
    [repeat split; intros; first [reflexivity|lia]|].
  destruct (Z.leb_spec (Sides d) 1);
    [repeat split; intros; first [reflexivity|lia]|].
  destruct (Z.ltb_spec (DropLow d) 0);
    [repeat split; intros; first [reflexivity|lia]|].
  destruct (Z.ltb_spec (DropHigh d) 0);
    [repeat split; intros; first [reflexivity|lia]|].
  repeat split; intros; try lia.
  unfold Int.add. rewrite wrap_id by (int_bounds; lia).
  rewrite Z.geb_leb.
  now replace (Number d <=? DropLow d + DropHigh d) with true
    by (symmetry; apply Z.leb_le; lia).
Qed.

Lemma Validate_first_violation_witness :
  Validate (mkDice 2 20 1 1)
    = (Ok (Some (ErrTooManyDropped 1 1 2)), mkDice 2 20 1 1) /\
  Validate (mkDice 2 20 (-1) (-1))
    = (Ok (Some (ErrDropLowTooLow (-1))), mkDice 2 20 (-1) (-1)).
Proof.
  split.
  - apply (Validate_first_violation (mkDice 2 20 1 1));
      simpl; rewrite ?MaxInt_eq; lia.
  - apply (Validate_first_violation (mkDice 2 20 (-1) (-1))); simpl; lia.
Defined.
